(** * AnonymizationService: a shallow embedding and its verified properties

    The development follows [src/services/AnonymizationService.ts].  A
    JavaScript string is the list of its UTF-16 code units; a regular
    expression is an abstract syntax tree interpreted by a backtracking
    matcher that lists its results in the priority order of the ECMAScript
    matcher; [String.prototype.replace] and [String.prototype.match] with a
    global pattern share one left-to-right scanner.  Calls that may throw
    return a [result]; the year that [new Date().getFullYear()] reads is a
    parameter.

    Beside the anonymization service the development covers the link loop
    of [RewriteAgent.addInternalLinks], the key handling of
    [SearchConsoleService], the quality score [ClaudeService] computes
    without an API client and the design request message of
    [SlackService]. *)

From Stdlib Require Import String Ascii.
From Stdlib Require Import ZArith List Bool Lia DecimalNat.
Import ListNotations.
Open Scope list_scope.
Open Scope Z_scope.

(** ** Strings *)

(** A string is a sequence of UTF-16 code units. *)
Definition str := list Z.

Fixpoint bytes_of (s : string) : list Z :=
  match s with
  | EmptyString => []
  | String a r => Z.of_nat (nat_of_ascii a) :: bytes_of r
  end.

(** Source literals are written as in the TypeScript file (UTF-8) and
    decoded to UTF-16 code units; a four-byte sequence gives a surrogate
    pair. *)
Fixpoint utf16 (b : list Z) : str :=
  match b with
  | [] => []
  | b0 :: r =>
    if b0 <? 128 then b0 :: utf16 r
    else if b0 <? 224 then
      match r with
      | b1 :: r1 => ((b0 - 192) * 64 + (b1 - 128)) :: utf16 r1
      | [] => []
      end
    else if b0 <? 240 then
      match r with
      | b1 :: b2 :: r2 =>
        ((b0 - 224) * 4096 + (b1 - 128) * 64 + (b2 - 128)) :: utf16 r2
      | _ => []
      end
    else
      match r with
      | b1 :: b2 :: b3 :: r3 =>
        let cp := (b0 - 240) * 262144 + (b1 - 128) * 4096
                  + (b2 - 128) * 64 + (b3 - 128) - 65536 in
        (55296 + cp / 1024) :: (56320 + cp mod 1024) :: utf16 r3
      | _ => []
      end
  end.

Definition js (s : string) : str := utf16 (bytes_of s).

Definition str_eqb (a b : str) : bool :=
  if list_eq_dec Z.eq_dec a b then true else false.

Fixpoint starts_with (w s : str) : bool :=
  match w, s with
  | [], _ => true
  | _ :: _, [] => false
  | a :: w', b :: s' => (a =? b) && starts_with w' s'
  end.

(** [String.prototype.includes] *)
Fixpoint includes (s w : str) : bool :=
  starts_with w s ||
  match s with
  | [] => false
  | _ :: t => includes t w
  end.

(** ** Numbers and their decimal text *)

Definition is_digit (c : Z) : bool := (48 <=? c) && (c <=? 57).

Fixpoint uint_chars (d : Decimal.uint) : str :=
  match d with
  | Decimal.Nil => []
  | Decimal.D0 r => 48 :: uint_chars r
  | Decimal.D1 r => 49 :: uint_chars r
  | Decimal.D2 r => 50 :: uint_chars r
  | Decimal.D3 r => 51 :: uint_chars r
  | Decimal.D4 r => 52 :: uint_chars r
  | Decimal.D5 r => 53 :: uint_chars r
  | Decimal.D6 r => 54 :: uint_chars r
  | Decimal.D7 r => 55 :: uint_chars r
  | Decimal.D8 r => 56 :: uint_chars r
  | Decimal.D9 r => 57 :: uint_chars r
  end.

(** Number-to-string conversion of a non-negative integer, as in
    [`${matches.length}`]. *)
Definition nat_to_str (n : nat) : str := uint_chars (Nat.to_uint n).

(** Number-to-string conversion of an integer, as in [`${diff}`]: a minus
    sign for negative values. *)
Definition int_to_str (z : Z) : str :=
  if z <? 0 then 45 :: nat_to_str (Z.to_nat (- z)) else nat_to_str (Z.to_nat z).

Fixpoint digits_value (acc : Z) (s : str) : Z :=
  match s with
  | [] => acc
  | c :: t => if is_digit c then digits_value (10 * acc + (c - 48)) t else acc
  end.

(** [parseInt] on the arguments it receives in this file, which are runs of
    ASCII digits captured by [\d]: the value of the leading digits, and NaN
    ([None]) when the text does not start with a digit or is [undefined].
    The value is kept exact; the code compares it with constants only. *)
Definition parseInt (o : option str) : option Z :=
  match o with
  | Some (c :: t) => if is_digit c then Some (digits_value 0 (c :: t)) else None
  | _ => None
  end.

(** [value >= k], false on NaN. *)
Definition ge (v : option Z) (k : Z) : bool :=
  match v with
  | Some x => k <=? x
  | None => false
  end.

(** ** Errors *)

Inductive error := TypeError | SyntaxError.

Inductive result (A : Type) :=
| Ok (a : A)
| Throw (e : error).
Arguments Ok {A} a.
Arguments Throw {A} e.

Definition bind {A B} (x : result A) (f : A -> result B) : result B :=
  match x with
  | Ok a => f a
  | Throw e => Throw e
  end.

Notation "x <- c ;; k" := (bind c (fun x => k))
  (at level 61, c at next level, right associativity).

(** ** Regular expressions *)

Inductive regex :=
| Empty
| Char (c : Z)
| Class (negated : bool) (ranges : list (Z * Z))
| Seq (a b : regex)
| Alt (a b : regex)
| Repeat (lo : nat) (hi : option nat) (greedy : bool) (a : regex)
| Group (n : nat) (a : regex).

Definition in_ranges (ranges : list (Z * Z)) (c : Z) : bool :=
  existsb (fun r => (fst r <=? c) && (c <=? snd r)) ranges.

Definition in_class (negated : bool) (ranges : list (Z * Z)) (c : Z) : bool :=
  xorb negated (in_ranges ranges c).

(** Captures: group number and captured text, most recent first. *)
Definition caps := list (nat * str).

Fixpoint capture (n : nat) (cs : caps) : option str :=
  match cs with
  | [] => None
  | (k, t) :: r => if Nat.eqb k n then Some t else capture n r
  end.

(** A matcher result: the captures and the input that remains. *)
Definition mres := (caps * str)%type.

(** The ECMAScript RepeatMatcher.  Once [lo] iterations are done an
    iteration that consumes nothing is rejected; a greedy quantifier tries
    one more iteration before stopping, a lazy one stops first.  The
    recursion is bounded by [fuel]; [mt] supplies more than the iterations
    can use ([loop_fuel]). *)
Fixpoint loop (body : caps -> str -> list mres) (fuel lo : nat)
    (hi : option nat) (greedy : bool) (cs : caps) (s : str) : list mres :=
  match hi with
  | Some O => [(cs, s)]
  | _ =>
    match fuel with
    | O => match lo with O => [(cs, s)] | S _ => [] end
    | S f =>
      let again :=
        flat_map (fun y : mres =>
          if Nat.eqb lo 0 && Nat.eqb (length (snd y)) (length s) then []
          else loop body f (Nat.pred lo) (option_map Nat.pred hi) greedy
                    (fst y) (snd y))
          (body cs s) in
      match lo with
      | S _ => again
      | O => if greedy then again ++ [(cs, s)] else (cs, s) :: again
      end
    end
  end.

(** All ways the pattern matches a prefix of [s], best first. *)
Fixpoint mt (r : regex) (cs : caps) (s : str) {struct r} : list mres :=
  match r with
  | Empty => [(cs, s)]
  | Char c =>
    match s with
    | x :: t => if x =? c then [(cs, t)] else []
    | [] => []
    end
  | Class negated ranges =>
    match s with
    | x :: t => if in_class negated ranges x then [(cs, t)] else []
    | [] => []
    end
  | Seq a b => flat_map (fun y : mres => mt b (fst y) (snd y)) (mt a cs s)
  | Alt a b => mt a cs s ++ mt b cs s
  | Repeat lo hi greedy a =>
    loop (mt a) (lo + length s + 1) lo hi greedy cs s
  | Group n a =>
    map (fun y : mres =>
           ((n, firstn (length s - length (snd y)) s) :: fst y, snd y))
        (mt a cs s)
  end.

(** The match the engine reports at the start of [s]: its captures and
    its length. *)
Definition exec_at (r : regex) (s : str) : option (caps * nat) :=
  match mt r [] s with
  | [] => None
  | (cs, rest) :: _ => Some (cs, (length s - length rest)%nat)
  end.

(** One step of a global scan: an unmatched code unit, or a match with its
    captures. *)
Inductive piece :=
| Gap (c : Z)
| Hit (m : str) (cs : caps).

(** The global scan of [replace] and [match]: matches are searched from
    left to right, a match resumes the search at its end, an empty match
    advances by one code unit.  [skip] counts the code units of the
    current match still to be passed over. *)
Fixpoint scan (r : regex) (skip : nat) (s : str) : list piece :=
  match skip with
  | S k =>
    match s with
    | [] => []
    | _ :: t => scan r k t
    end
  | O =>
    match exec_at r s with
    | Some (cs, n) =>
      Hit (firstn n s) cs ::
      match n, s with
      | O, c :: t => Gap c :: scan r 0 t
      | S k, _ :: t => scan r k t
      | _, [] => []
      end
    | None =>
      match s with
      | [] => []
      | c :: t => Gap c :: scan r 0 t
      end
    end
  end.

Fixpoint hits (ps : list piece) : list (str * caps) :=
  match ps with
  | [] => []
  | Gap _ :: r => hits r
  | Hit m cs :: r => (m, cs) :: hits r
  end.

(** [s.match(r)] for a global pattern: the matched texts ([null] is the
    empty list). *)
Definition match_all (r : regex) (s : str) : list str :=
  map fst (hits (scan r 0 s)).

(** [r.test(s)] and the first match of a pattern without the global flag. *)
Fixpoint search (r : regex) (s : str) : option (str * caps) :=
  match exec_at r s with
  | Some (cs, n) => Some (firstn n s, cs)
  | None =>
    match s with
    | [] => None
    | _ :: t => search r t
    end
  end.

Definition test (r : regex) (s : str) : bool :=
  match search r s with
  | Some _ => true
  | None => false
  end.

(** A replacement: a string, or a function of the match and its captures
    that may throw. *)
Inductive replaceValue :=
| Str (s : str)
| Fn (f : str -> caps -> result str).

Definition apply_replacement (v : replaceValue) (m : str) (cs : caps)
  : result str :=
  match v with
  | Str l => Ok l
  | Fn f => f m cs
  end.

Fixpoint rebuild (v : replaceValue) (ps : list piece) : result str :=
  match ps with
  | [] => Ok []
  | Gap c :: r => t <- rebuild v r ;; Ok (c :: t)
  | Hit m cs :: r =>
    x <- apply_replacement v m cs ;;
    t <- rebuild v r ;;
    Ok (x ++ t)
  end.

(** [s.replace(r, v)] for a global pattern [r].  No replacement string of
    this program contains a dollar sign, so a string replacement is
    inserted as it is. *)
Definition replace (r : regex) (v : replaceValue) (s : str) : result str :=
  rebuild v (scan r 0 s).

(** A replacement function that cannot throw. *)
Definition pure_fn (f : str -> caps -> str) : replaceValue :=
  Fn (fun m cs => Ok (f m cs)).

(** ** Character classes of the patterns *)

Definition digit : regex := Class false [(48, 57)].
Definition word_ranges : list (Z * Z) :=
  [(48, 57); (65, 90); (95, 95); (97, 122)].
Definition space_ranges : list (Z * Z) :=
  [(9, 13); (32, 32); (160, 160); (5760, 5760); (8192, 8202); (8232, 8233);
   (8239, 8239); (8287, 8287); (12288, 12288); (65279, 65279)].
(** [.] : any code unit but a line terminator *)
Definition dot : regex := Class true [(10, 10); (13, 13); (8232, 8233)].
(** [一-龯] *)
Definition kanji_ranges : list (Z * Z) := [(19968, 40879)].
(** [一-龯぀-ゟ゠-ヿ] *)
Definition cjk_ranges : list (Z * Z) :=
  [(19968, 40879); (12352, 12447); (12448, 12543)].

(** The members of a class written as a list of characters. *)
Definition singles (s : str) : list (Z * Z) := map (fun c => (c, c)) s.

(** A literal text as a pattern. *)
Fixpoint lit (s : str) : regex :=
  match s with
  | [] => Empty
  | c :: t => Seq (Char c) (lit t)
  end.

Definition plus (a : regex) : regex := Repeat 1 None true a.
Definition opt (a : regex) : regex := Repeat 0 (Some 1%nat) true a.
Definition between (lo hi : nat) (a : regex) : regex :=
  Repeat lo (Some hi) true a.
Definition at_least (lo : nat) (a : regex) : regex := Repeat lo None true a.
Definition lazy_star (a : regex) : regex := Repeat 0 None false a.

Fixpoint seqs (l : list regex) : regex :=
  match l with
  | [] => Empty
  | [a] => a
  | a :: r => Seq a (seqs r)
  end.

Fixpoint alts (l : list regex) : regex :=
  match l with
  | [] => Empty
  | [a] => a
  | a :: r => Alt a (alts r)
  end.

Definition star (a : regex) : regex := Repeat 0 None true a.

(** ** The anonymization rules *)

(** 株式会社[…]+|[…]+株式会社|[…]+\s*(Inc\.|Corp\.|Co\.,?\s*Ltd\.?) *)
Definition companyName_pattern : regex :=
  alts
    [ Seq (lit (js "株式会社")) (plus (Class false cjk_ranges));
      Seq (plus (Class false cjk_ranges)) (lit (js "株式会社"));
      seqs [ plus (Class false cjk_ranges);
             star (Class false space_ranges);
             Group 1 (alts [ lit (js "Inc.");
                             lit (js "Corp.");
                             seqs [ lit (js "Co.");
                                    opt (Char 44);
                                    star (Class false space_ranges);
                                    lit (js "Ltd");
                                    opt (Char 46) ] ]) ] ].

(** The two bracket expressions of the person-name pattern are character
    classes: each lists single characters, the vertical bar among them. *)
Definition personName_pattern : regex :=
  seqs
    [ Class false (singles (js "田中|佐藤|鈴木|高橋|渡辺|伊藤|山本|中村|小林|加藤"));
      between 1 3 (Class false kanji_ranges);
      Class false (singles (js "様|さん|氏|社長|部長|課長|主任")) ].

(** [\w\.-]+@[\w\.-]+\.\w+ *)
Definition email_pattern : regex :=
  seqs
    [ plus (Class false (word_ranges ++ singles (js ".-")));
      Char 64;
      plus (Class false (word_ranges ++ singles (js ".-")));
      Char 46;
      plus (Class false word_ranges) ].

(** 0\d{1,4}-\d{1,4}-\d{4}|0\d{9,10} *)
Definition phone_pattern : regex :=
  Alt
    (seqs [ Char 48; between 1 4 digit; Char 45; between 1 4 digit; Char 45;
            between 4 4 digit ])
    (Seq (Char 48) (between 9 10 digit)).

(** (\d{1,3},?)+(億|万)?円の売上|売上(\d{1,3},?)+(億|万)?円
    |シェア\d+(\.\d+)?%|前年比\d+(\.\d+)?% *)
Definition specificNumbers_pattern : regex :=
  alts
    [ seqs [ plus (Group 1 (Seq (between 1 3 digit) (opt (Char 44))));
             opt (Group 2 (Alt (lit (js "億")) (lit (js "万"))));
             lit (js "円の売上") ];
      seqs [ lit (js "売上");
             plus (Group 3 (Seq (between 1 3 digit) (opt (Char 44))));
             opt (Group 4 (Alt (lit (js "億")) (lit (js "万"))));
             lit (js "円") ];
      seqs [ lit (js "シェア"); plus digit;
             opt (Group 5 (Seq (Char 46) (plus digit))); Char 37 ];
      seqs [ lit (js "前年比"); plus digit;
             opt (Group 6 (Seq (Char 46) (plus digit))); Char 37 ] ].

(** 〒\d{3}-\d{4}.*?[一-龯]+[都道府県].*?[一-龯\d\-]+ *)
Definition address_pattern : regex :=
  seqs
    [ lit (js "〒"); between 3 3 digit; Char 45; between 4 4 digit;
      lazy_star dot;
      plus (Class false kanji_ranges);
      Class false (singles (js "都道府県"));
      lazy_star dot;
      plus (Class false (kanji_ranges ++ [(48, 57); (45, 45)])) ].

(** 「[…\w\s]+」 *)
Definition productName_pattern : regex :=
  seqs
    [ lit (js "「");
      plus (Class false (cjk_ranges ++ word_ranges ++ space_ranges));
      lit (js "」") ].

Definition specificNumbers_replacement (m : str) (_ : caps) : str :=
  if includes m (js "億円") then js "数十億円規模の売上"
  else if includes m (js "万円") then js "数千万円規模の売上"
  else if includes m (js "シェア") then js "業界トップクラスのシェア"
  else if includes m (js "前年比") then js "前年比大幅増"
  else js "非公開".

Definition productName_replacement (m : str) (_ : caps) : str :=
  if includes m (js "システム") || includes m (js "ソフト")
  then js "「独自開発システム」"
  else if includes m (js "サービス") then js "「自社サービス」"
  else js "「自社製品」".

Record rule := {
  key : str;
  pattern : regex;
  replacement : replaceValue
}.

(** The rule table, in the order [Object.entries] enumerates it. *)
Definition anonymizationRules : list rule :=
  [ {| key := js "companyName"; pattern := companyName_pattern;
       replacement := Str (js "某大手企業") |};
    {| key := js "personName"; pattern := personName_pattern;
       replacement := Str (js "担当者") |};
    {| key := js "email"; pattern := email_pattern;
       replacement := Str (js "contact@example.com") |};
    {| key := js "phone"; pattern := phone_pattern;
       replacement := Str (js "0XX-XXXX-XXXX") |};
    {| key := js "specificNumbers"; pattern := specificNumbers_pattern;
       replacement := pure_fn specificNumbers_replacement |};
    {| key := js "address"; pattern := address_pattern;
       replacement := Str (js "本社所在地") |};
    {| key := js "productName"; pattern := productName_pattern;
       replacement := pure_fn productName_replacement |} ].

(** ** Confidential records *)

Record companyInfoRecord := {
  title : str;
  category : str;
  isConfidential : bool;
  isPublic : bool
}.

(** What a property read on the [replacements] object can yield: one of its
    own strings, a member inherited from [Object.prototype], or
    [undefined]. *)
Inductive builtin :=
| ObjectConstructor
| HasOwnProperty
| IsPrototypeOf
| PropertyIsEnumerable
| ToLocaleString
| ToStringMethod
| ValueOf
| DefineGetter
| DefineSetter
| LookupGetter
| LookupSetter.

Inductive value :=
| Undefined
| StringValue (s : str)
| ObjectPrototype
| Builtin (b : builtin).

Fixpoint assoc {A : Type} (k : str) (l : list (str * A)) : option A :=
  match l with
  | [] => None
  | (k', v) :: r => if str_eqb k k' then Some v else assoc k r
  end.

Definition replacements : list (str * str) :=
  [ (js "financial", js "財務関連情報");
    (js "strategic", js "経営戦略情報");
    (js "personnel", js "人事情報");
    (js "technical", js "技術情報");
    (js "customer", js "顧客情報");
    (js "partner", js "パートナー情報");
    (js "internal", js "社内情報") ].

(** The properties every object literal inherits. *)
Definition object_prototype : list (str * value) :=
  [ (js "constructor", Builtin ObjectConstructor);
    (js "__defineGetter__", Builtin DefineGetter);
    (js "__defineSetter__", Builtin DefineSetter);
    (js "hasOwnProperty", Builtin HasOwnProperty);
    (js "__lookupGetter__", Builtin LookupGetter);
    (js "__lookupSetter__", Builtin LookupSetter);
    (js "isPrototypeOf", Builtin IsPrototypeOf);
    (js "propertyIsEnumerable", Builtin PropertyIsEnumerable);
    (js "toString", Builtin ToStringMethod);
    (js "valueOf", Builtin ValueOf);
    (js "__proto__", ObjectPrototype);
    (js "toLocaleString", Builtin ToLocaleString) ].

(** [replacements[category]]: an own property, else an inherited one. *)
Definition get_replacement (category : str) : value :=
  match assoc category replacements with
  | Some l => StringValue l
  | None =>
    match assoc category object_prototype with
    | Some v => v
    | None => Undefined
    end
  end.

Definition truthy (v : value) : bool :=
  match v with
  | Undefined => false
  | StringValue [] => false
  | _ => true
  end.

(** [replacements[category] || '非公開情報'] *)
Definition getGenericReplacement (category : str) : value :=
  let v := get_replacement category in
  if truthy v then v else StringValue (js "非公開情報").

(** A built-in of [Object.prototype] called by [replace] as a replacement
    function: [this] is [undefined], the first argument is the match, and
    the returned value is converted to a string.  [Object(match)] converts
    back to the match; [toString] answers for an undefined receiver;
    [isPrototypeOf] answers [false] for a primitive argument; the others
    convert [this] to an object first, which throws. *)
Definition call_builtin (b : builtin) (m : str) : result str :=
  match b with
  | ObjectConstructor => Ok m
  | ToStringMethod => Ok (js "[object Undefined]")
  | IsPrototypeOf => Ok (js "false")
  | _ => Throw TypeError
  end.

(** The second argument of [replace]: a callable value is called for each
    match, any other value is converted to a string. *)
Definition as_replaceValue (v : value) : replaceValue :=
  match v with
  | StringValue l => Str l
  | Builtin b => Fn (fun m _ => call_builtin b m)
  | ObjectPrototype => Str (js "[object Object]")
  | Undefined => Str (js "undefined")
  end.

(** The class [.*+?^${}()|[\]\\] of [escapeRegex]. *)
Definition syntax_chars : str := js ".*+?^${}()|[]\".

Definition is_syntax (c : Z) : bool := in_ranges (singles syntax_chars) c.

(** [str.replace(/[.*+?^${}()|[\]\\]/g, '\\$&')]: a backslash before each
    syntax character. *)
Definition escapeRegex (s : str) : result str :=
  replace (Class false (singles syntax_chars))
          (pure_fn (fun m _ => 92 :: m)) s.

(** [new RegExp(source, 'g')] for the sources [escapeRegex] produces:
    literal characters and backslash-escaped syntax characters, which
    compile to the literal pattern ([newRegExp_escaped]).  The program
    passes no other source; for one the model has no pattern and answers
    with a [SyntaxError]. *)
Fixpoint newRegExp (source : str) : result regex :=
  match source with
  | [] => Ok Empty
  | c :: t =>
    if c =? 92 then
      match t with
      | c' :: t' =>
        if is_syntax c' then r <- newRegExp t' ;; Ok (Seq (Char c') r)
        else Throw SyntaxError
      | [] => Throw SyntaxError
      end
    else if is_syntax c then Throw SyntaxError
    else r <- newRegExp t ;; Ok (Seq (Char c) r)
  end.

Definition eligible (info : companyInfoRecord) : bool :=
  isConfidential info && negb (isPublic info).

(** The first loop of [anonymize]. *)
Fixpoint purge (content : str) (companyInfo : list companyInfoRecord)
  : result str :=
  match companyInfo with
  | [] => Ok content
  | info :: rest =>
    if eligible info then
      source <- escapeRegex (title info) ;;
      sensitivePattern <- newRegExp source ;;
      content' <- replace sensitivePattern
                    (as_replaceValue (getGenericReplacement (category info)))
                    content ;;
      purge content' rest
    else purge content rest
  end.

(** The second loop of [anonymize]. *)
Fixpoint apply_rules (rules : list rule) (content : str) : result str :=
  match rules with
  | [] => Ok content
  | r :: rest =>
    content' <- replace (pattern r) (replacement r) content ;;
    apply_rules rest content'
  end.

(** ** Numbers *)

(** (\d{4,})(万円) *)
Definition amount_pattern : regex :=
  Seq (Group 1 (at_least 4 digit)) (Group 2 (lit (js "万円"))).

(** (\d{2,3})(\.\d+)?% *)
Definition percent_pattern : regex :=
  seqs [ Group 1 (between 2 3 digit);
         opt (Group 2 (Seq (Char 46) (plus digit)));
         Char 37 ].

Definition amount_band (m : str) (cs : caps) : str :=
  let value := parseInt (capture 1 cs) in
  if ge value 10000 then js "数億円"
  else if ge value 1000 then js "数千万円"
  else m.

Definition percent_band (m : str) (cs : caps) : str :=
  let value := parseInt (capture 1 cs) in
  if ge value 80 then js "80%以上"
  else if ge value 50 then js "50%以上"
  else if ge value 30 then js "約30-50%"
  else if ge value 10 then js "10%以上"
  else js "10%未満".

Definition obscureNumbers (content : str) : result str :=
  content1 <- replace amount_pattern (pure_fn amount_band) content ;;
  replace percent_pattern (pure_fn percent_band) content1.

(** ** Dates *)

(** 20\d{2}年\d{1,2}月\d{1,2}日 *)
Definition full_date_pattern : regex :=
  seqs [ lit (js "20"); between 2 2 digit; lit (js "年");
         between 1 2 digit; lit (js "月");
         between 1 2 digit; lit (js "日") ].

(** 20\d{2}年\d{1,2}月 *)
Definition year_month_pattern : regex :=
  seqs [ lit (js "20"); between 2 2 digit; lit (js "年");
         between 1 2 digit; lit (js "月") ].

(** 20\d{2}年 *)
Definition year_pattern : regex :=
  seqs [ lit (js "20"); between 2 2 digit; lit (js "年") ].

(** \d{4} *)
Definition four_digits : regex := between 4 4 digit.

Definition to_year_month (m : str) (_ : caps) : result str :=
  match search year_month_pattern m with
  | Some (yearMonth, _) => Ok yearMonth
  | None => Ok m
  end.

(** The relative label; [diff] is NaN when the year is. *)
Definition relative_year (diff : option Z) : str :=
  match diff with
  | Some d =>
    if d =? 0 then js "今年"
    else if d =? 1 then js "昨年"
    else if d =? 2 then js "一昨年"
    else if d <=? 5 then int_to_str d ++ js "年前"
    else js "数年前"
  | None => js "数年前"
  end.

(** The callback of the second replacement; the non-null assertion on the
    inner match throws when there is none. *)
Definition to_relative (currentYear : Z) (m : str) (_ : caps) : result str :=
  match search four_digits m with
  | Some (digits, _) =>
    let year := parseInt (Some digits) in
    Ok (relative_year (option_map (fun y => currentYear - y) year))
  | None => Throw TypeError
  end.

(** [currentYear] is what [new Date().getFullYear()] returns at the call. *)
Definition generalizeDates (currentYear : Z) (content : str) : result str :=
  content1 <- replace full_date_pattern (Fn to_year_month) content ;;
  replace year_pattern (Fn (to_relative currentYear)) content1.

(** ** The pipeline *)

(** The promise [anonymize] returns is fulfilled with [Ok]'s text and
    rejected with [Throw]'s error. *)
Definition anonymize (currentYear : Z) (content : str)
    (companyInfo : list companyInfoRecord) : result str :=
  c1 <- purge content companyInfo ;;
  c2 <- apply_rules anonymizationRules c1 ;;
  c3 <- obscureNumbers c2 ;;
  generalizeDates currentYear c3.

(** ** Risk level *)

Inductive level := high | medium | low.

Definition highRiskKeywords : list str :=
  [ js "売上"; js "利益"; js "収益"; js "損失";
    js "戦略"; js "計画"; js "開発中"; js "未公開";
    js "顧客リスト"; js "取引先"; js "契約";
    js "特許"; js "技術"; js "ノウハウ" ].

(** \d{4,}万円|\d+億円 *)
Definition money_pattern : regex :=
  Alt (Seq (at_least 4 digit) (lit (js "万円")))
      (Seq (plus digit) (lit (js "億円"))).

(** \d+% *)
Definition any_percent_pattern : regex := Seq (plus digit) (Char 37).

(** 「[^」]+」 *)
Definition quoted_pattern : regex :=
  seqs [ lit (js "「"); plus (Class true (singles (js "」"))); lit (js "」") ].

(** The loop over the keywords: ten points for each keyword the text
    contains. *)
Definition keyword_score (content : str) : Z :=
  fold_left (fun score keyword =>
               if includes content keyword then score + 10 else score)
            highRiskKeywords 0.

(** The value of [score] when [determineAnonymizationLevel] reaches its
    thresholds. *)
Definition risk_score (content : str) : Z :=
  let score := keyword_score content in
  let score := if test money_pattern content then score + 20 else score in
  let score := if test any_percent_pattern content then score + 10 else score in
  let score := if test full_date_pattern content then score + 5 else score in
  let properNouns := match_all quoted_pattern content in
  match properNouns with
  | [] => score
  | _ => score + Z.of_nat (length properNouns) * 5
  end.

Definition determineAnonymizationLevel (content : str) : level :=
  let score := risk_score content in
  if 50 <=? score then high
  else if 20 <=? score then medium
  else low.

(** ** Report *)

Record report := {
  changedCount : nat;
  removedInfo : list str;
  anonymizationLevel : level
}.

(** [`${key}: ${matches.length}件`] *)
Definition entry (k : str) (n : nat) : str :=
  k ++ js ": " ++ nat_to_str n ++ js "件".

(** The loop of [generateAnonymizationReport]: the running count and the
    entries pushed so far. *)
Fixpoint tally (rules : list rule) (original : str)
    (acc : nat * list str) : nat * list str :=
  match rules with
  | [] => acc
  | r :: rest =>
    let matches := match_all (pattern r) original in
    match matches with
    | [] => tally rest original acc
    | _ =>
      tally rest original
        ((fst acc + length matches)%nat,
         snd acc ++ [entry (key r) (length matches)])
    end
  end.

Definition generateAnonymizationReport (original anonymized : str) : report :=
  let t := tally anonymizationRules original (O, []) in
  {| changedCount := fst t;
     removedInfo := snd t;
     anonymizationLevel := determineAnonymizationLevel original |}.

(** ** Internal links *)

(** [GetSubstitution] for a string pattern, which has no captures: in the
    replacement text [$$] stands for a dollar sign, [$&] for the matched
    text, [$`] for the text before the match and [$'] for the text after
    it; any other dollar sign is written as it is. *)
Fixpoint getSubstitution (matched before after template : str) : str :=
  match template with
  | [] => []
  | c :: t =>
    if c =? 36 then
      match t with
      | d :: t' =>
        if d =? 36 then 36 :: getSubstitution matched before after t'
        else if d =? 38 then matched ++ getSubstitution matched before after t'
        else if d =? 96 then before ++ getSubstitution matched before after t'
        else if d =? 39 then after ++ getSubstitution matched before after t'
        else 36 :: getSubstitution matched before after t
      | [] => [36]
      end
    else c :: getSubstitution matched before after t
  end.

(** The text before and after the first occurrence of [w] in [s]. *)
Fixpoint split_first (w s : str) : option (str * str) :=
  if starts_with w s then Some ([], skipn (length w) s)
  else
    match s with
    | [] => None
    | c :: t =>
      match split_first w t with
      | Some (before, after) => Some (c :: before, after)
      | None => None
      end
    end.

(** [s.replace(searchValue, replaceValue)] for two strings: the first
    occurrence only. *)
Definition replace_first (s searchValue replaceValue : str) : str :=
  match split_first searchValue s with
  | Some (before, after) =>
    before ++ getSubstitution searchValue before after replaceValue ++ after
  | None => s
  end.

(** An element of the list [suggestInternalLinks] returns. *)
Module Suggestion.
Record t := {
  anchorText : str;
  url : str
}.
End Suggestion.

(** [`[${suggestion.anchorText}](${suggestion.url})`] *)
Definition link (sg : Suggestion.t) : str :=
  js "[" ++ Suggestion.anchorText sg ++ js "](" ++ Suggestion.url sg ++ js ")".

(** The loop of [addInternalLinks] over the suggestions it received; the
    third argument of [replace] has no effect. *)
Definition apply_links (content : str) (linkSuggestions : list Suggestion.t)
  : str :=
  fold_left (fun linkedContent sg =>
               replace_first linkedContent (Suggestion.anchorText sg) (link sg))
            linkSuggestions content.

(** ** SearchConsoleService: the service-account key *)

(** The pattern [/\\n/g]: a backslash followed by the letter n. *)
Definition escaped_newline : regex := lit [92; 110].

(** [process.env.GOOGLE_PRIVATE_KEY?.replace(/\\n/g, '\n')]: [undefined]
    stays [undefined]. *)
Definition private_key (GOOGLE_PRIVATE_KEY : option str) : option (result str) :=
  option_map (replace escaped_newline (Str [10])) GOOGLE_PRIVATE_KEY.

(** ** ClaudeService: the quality score without an API client *)

(** [Math.min(95, 70 + Math.floor(content.length / 100))]. *)
Definition mock_quality_score (content : str) : Z :=
  Z.min 95 (70 + Z.of_nat (length content) / 100).

(** ** SlackService: the design request message *)

Module DesignRequest.
Record t := {
  articleTitle : str;
  articleUrl : str;
  keyPoints : list str;
  suggestedGraphics : list str
}.
End DesignRequest.

Inductive textObject :=
| plain_text (text : str)
| mrkdwn (text : str).

Inductive block :=
| header (text : textObject)
| section (text : textObject)
| section_fields (fields : list textObject)
| divider
| context (elements : list textObject).

(** [l.join(sep)]. *)
Fixpoint join (sep : str) (l : list str) : str :=
  match l with
  | [] => []
  | [x] => x
  | x :: r => x ++ sep ++ join sep r
  end.

(** The two blocks pushed for the request at [index]. *)
Definition request_heading (index : nat) (request : DesignRequest.t) : block :=
  section (mrkdwn (js "*" ++ nat_to_str (index + 1) ++ js ". "
                   ++ DesignRequest.articleTitle request ++ js "*" ++ [10]
                   ++ js "<" ++ DesignRequest.articleUrl request
                   ++ js "|記事を見る>")).

Definition request_fields (request : DesignRequest.t) : block :=
  section_fields
    [ mrkdwn (js "*📌 重要ポイント*" ++ [10]
              ++ join [10] (map (fun p => js "• " ++ p)
                                (DesignRequest.keyPoints request)));
      mrkdwn (js "*🎨 推奨グラフィック*" ++ [10]
              ++ join [10] (map (fun g => js "• " ++ g)
                                (DesignRequest.suggestedGraphics request))) ].

(** The body of [requests.forEach((request, index) => ...)], from [index]
    on; [total] is [requests.length]. *)
Fixpoint request_blocks (total index : nat) (requests : list DesignRequest.t)
  : list block :=
  match requests with
  | [] => []
  | request :: rest =>
    [request_heading index request; request_fields request]
    ++ (if Z.of_nat index <? Z.of_nat total - 1 then [divider] else [])
    ++ request_blocks total (S index) rest
  end.

(** [buildDesignRequestBlocks]; [now] is the text of
    [new Date().toLocaleString('ja-JP')]. *)
Definition buildDesignRequestBlocks (now : str)
    (requests : list DesignRequest.t) : list block :=
  [ header (plain_text (js "📊 記事リライト完了 - 図解作成依頼"));
    section (mrkdwn (js "*本日リライトが完了した記事の図解作成をお願いします*"
                     ++ [10] ++ js "件数: " ++ nat_to_str (length requests)
                     ++ js "件"));
    divider ]
  ++ request_blocks (length requests) 0 requests
  ++ [ context [mrkdwn (js "⏰ 依頼日時: " ++ now
                        ++ js " | 🤖 自動送信 by RewriteAgent")] ].

(** ** Notions used by the statements *)

(** [w] occurs in [s] as a contiguous run. *)
Definition occurs (w s : str) : Prop := exists a b, s = a ++ w ++ b.

(** The call returns normally. *)
Definition returns {A : Type} (x : result A) : Prop := exists a, x = Ok a.

(** A category whose lookup in [replacements] does not reach a member of
    [Object.prototype]. *)
Definition plain (category : str) : bool :=
  match assoc category object_prototype with
  | Some _ => false
  | None => true
  end.

(** Every literal text the pipeline can insert. *)
Definition replacement_texts : list str :=
  [ js "某大手企業"; js "担当者"; js "contact@example.com"; js "0XX-XXXX-XXXX";
    js "数十億円規模の売上"; js "数千万円規模の売上"; js "業界トップクラスのシェア";
    js "前年比大幅増"; js "非公開"; js "本社所在地";
    js "「独自開発システム」"; js "「自社サービス」"; js "「自社製品」";
    js "数億円"; js "数千万円";
    js "80%以上"; js "50%以上"; js "約30-50%"; js "10%以上"; js "10%未満";
    js "今年"; js "昨年"; js "一昨年"; js "年前"; js "数年前";
    js "非公開情報" ] ++ map snd replacements.

(** The characters a replacement can write: those of the literal texts,
    the digits and sign of a number, and the year and month markers of a
    truncated date. *)
Definition vocabulary_char (c : Z) : bool :=
  is_digit c || existsb (Z.eqb c) (concat replacement_texts ++ js "-年月").


(** The band a percentage value falls in. *)
Definition percent_label (v : Z) : str :=
  if 80 <=? v then js "80%以上"
  else if 50 <=? v then js "50%以上"
  else if 30 <=? v then js "約30-50%"
  else if 10 <=? v then js "10%以上"
  else js "10%未満".

(** The magnitude, in units of 万円, that the text standing for an amount
    indicates: the lower bound of its band, or the amount itself when it
    is left as written. *)
Definition magnitude (label : str) : Z :=
  if str_eqb label (js "数億円") then 10000
  else if str_eqb label (js "数千万円") then 1000
  else digits_value 0 label.

(** Reading the count back from an entry ["<key>: <n>件"]. *)
Fixpoint after_colon (e : str) : option str :=
  match e with
  | [] => None
  | c :: t =>
    if c =? 58 then
      match t with
      | d :: t' => if d =? 32 then Some t' else after_colon t
      | [] => None
      end
    else after_colon t
  end.

Fixpoint read_count (acc : nat) (t : str) : option nat :=
  match t with
  | [] => None
  | c :: r =>
    if is_digit c then read_count (10 * acc + Z.to_nat (c - 48)) r
    else if (c =? 20214) && match r with [] => true | _ => false end
         then Some acc else None
  end.

Definition entry_count (e : str) : option nat :=
  match after_colon e with
  | Some t => read_count 0 t
  | None => None
  end.

Fixpoint sum_counts (es : list str) : option nat :=
  match es with
  | [] => Some O
  | e :: r =>
    match entry_count e, sum_counts r with
    | Some n, Some m => Some (n + m)%nat
    | _, _ => None
    end
  end.

(** The rule with a given key. *)
Definition rule_pattern (k : string) : regex :=
  match find (fun r => str_eqb (key r) (js k)) anonymizationRules with
  | Some r => pattern r
  | None => Empty
  end.

Definition confidential (t c : string) : companyInfoRecord :=
  {| title := js t; category := js c; isConfidential := true; isPublic := false |}.

(** ** Notions used by the proofs *)

(** Every character the pattern can consume satisfies [P]. *)
Fixpoint chars_in (P : Z -> Prop) (r : regex) : Prop :=
  match r with
  | Empty => True
  | Char c => P c
  | Class negated ranges => forall c, in_class negated ranges c = true -> P c
  | Seq a b | Alt a b => chars_in P a /\ chars_in P b
  | Repeat _ _ _ a | Group _ a => chars_in P a
  end.

(** The result [y] was reached from [s] by consuming characters in [P]. *)
Definition consumed (P : Z -> Prop) (s : str) (y : mres) : Prop :=
  exists m, s = m ++ snd y /\ Forall P m.

(** Every match of the pattern contains the character [c]. *)
Fixpoint needs (c : Z) (r : regex) : bool :=
  match r with
  | Empty => false
  | Char c' => c =? c'
  | Class _ _ => false
  | Seq a b => needs c a || needs c b
  | Alt a b => needs c a && needs c b
  | Repeat lo hi _ a =>
    negb (Nat.eqb lo 0)
    && match hi with Some O => false | _ => true end
    && needs c a
  | Group _ a => needs c a
  end.

(** What a replacement may write for a match [m] without bringing a text
    outside the vocabulary into the output: the match itself, or a
    non-empty text of vocabulary characters. *)
Definition harmless (m out : str) : Prop :=
  out = m \/ (out <> [] /\ forallb vocabulary_char out = true).

(** The text [escapeRegex] computes. *)
Definition escaped (s : str) : str :=
  flat_map (fun c => if is_syntax c then [92; c] else [c]) s.

(** ** Notions used by the further properties *)

(** The patterns the pipeline replaces, in the order it applies them. *)
Definition pipeline_patterns : list regex :=
  map pattern anonymizationRules
  ++ [amount_pattern; percent_pattern; full_date_pattern; year_pattern].

(** The year a token 20[d1][d2]年 names. *)
Definition year_of (d1 d2 : Z) : Z := 2000 + 10 * (d1 - 48) + (d2 - 48).

(** The categories whose lookup yields a method of [Object.prototype] that
    throws when [replace] calls it. *)
Definition throwing_categories : list str :=
  [ js "valueOf"; js "hasOwnProperty"; js "propertyIsEnumerable";
    js "toLocaleString"; js "__defineGetter__"; js "__defineSetter__";
    js "__lookupGetter__"; js "__lookupSetter__" ].

Definition record_of (t c : str) : companyInfoRecord :=
  {| title := t; category := c; isConfidential := true; isPublic := false |}.

(** * Properties *)

(** ** The report *)

(** C9: the report does not depend on its second argument; the count, the
    entries and the level are computed from the original text alone. *)
Theorem report_ignores_anonymized :
  forall original a1 a2 : str,
    generateAnonymizationReport original a1
    = generateAnonymizationReport original a2.
Proof. intros original a1 a2. unfold generateAnonymizationReport. reflexivity. Qed.

(** C5: a text with exactly one match of the email rule, exactly one of
    the phone rule and none of the five others is reported with a count of
    2 and the two entries for email and phone, in table order. *)
Theorem report_email_phone :
  forall text anonymized : str,
    length (match_all (rule_pattern "email") text) = 1%nat ->
    length (match_all (rule_pattern "phone") text) = 1%nat ->
    match_all (rule_pattern "companyName") text = [] ->
    match_all (rule_pattern "personName") text = [] ->
    match_all (rule_pattern "specificNumbers") text = [] ->
    match_all (rule_pattern "address") text = [] ->
    match_all (rule_pattern "productName") text = [] ->
    changedCount (generateAnonymizationReport text anonymized) = 2%nat
    /\ removedInfo (generateAnonymizationReport text anonymized)
       = [js "email: 1件"; js "phone: 1件"].
Proof.
  intros text anonymized He Hp Hc Hn Hs Ha Hq.
  change (rule_pattern "email") with email_pattern in He.
  change (rule_pattern "phone") with phone_pattern in Hp.
  change (rule_pattern "companyName") with companyName_pattern in Hc.
  change (rule_pattern "personName") with personName_pattern in Hn.
  change (rule_pattern "specificNumbers") with specificNumbers_pattern in Hs.
  change (rule_pattern "address") with address_pattern in Ha.
  change (rule_pattern "productName") with productName_pattern in Hq.
  unfold generateAnonymizationReport, anonymizationRules, tally; simpl pattern.
  rewrite Hc, Hn, Hs, Ha, Hq.
  destruct (match_all email_pattern text) as [|e le] eqn:Ee; [discriminate|].
  destruct (match_all phone_pattern text) as [|f lf] eqn:Ef; [discriminate|].
  destruct le; [|discriminate]. destruct lf; [|discriminate].
  split; reflexivity.
Qed.

Lemma report_email_phone_witness :
  changedCount
    (generateAnonymizationReport (js "連絡先 taro@example.co.jp 03-1234-5678") [])
  = 2%nat
  /\ removedInfo
       (generateAnonymizationReport (js "連絡先 taro@example.co.jp 03-1234-5678") [])
     = [js "email: 1件"; js "phone: 1件"].
Proof.
  apply (report_email_phone (js "連絡先 taro@example.co.jp 03-1234-5678") []);
    vm_compute; reflexivity.
Defined.

(** ** Lists of code units *)

Lemma starts_with_iff (w s : str) :
  starts_with w s = true <-> exists b, s = w ++ b.
Proof.
  revert s; induction w as [|a w IH]; intros s; simpl.
  - split; [intros _; exists s; reflexivity | reflexivity].
  - destruct s as [|b s]; [split; [discriminate | intros [q Hq]; discriminate]|].
    rewrite andb_true_iff, Z.eqb_eq, IH. split.
    + intros [-> [q ->]]. exists q; reflexivity.
    + intros [q Hq]. injection Hq as -> ->. split; [reflexivity | exists q; reflexivity].
Qed.

Lemma includes_iff (s w : str) : includes s w = true <-> occurs w s.
Proof.
  induction s as [|c s IH].
  - simpl. rewrite orb_false_r, starts_with_iff. split.
    + intros [b Hb]. exists [], b; exact Hb.
    + intros [a [b Hab]]. destruct a; [exists b; exact Hab|discriminate].
  - simpl. rewrite orb_true_iff, starts_with_iff, IH. split.
    + intros [[b Hb] | [a [b Hab]]].
      * exists [], b; exact Hb.
      * exists (c :: a), b; simpl; rewrite Hab; reflexivity.
    + intros [a [b Hab]]. destruct a as [|x a].
      * left; exists b; exact Hab.
      * right. injection Hab as _ Hab. exists a, b; exact Hab.
Qed.

Lemma includes_false_iff (s w : str) : includes s w = false <-> ~ occurs w s.
Proof.
  rewrite <- includes_iff. destruct (includes s w); split; intro H;
    try reflexivity; try discriminate; try (intro; discriminate).
  exfalso; apply H; reflexivity.
Qed.



(** ** The matcher *)

Lemma consumed_refl (P : Z -> Prop) (cs : caps) (s : str) : consumed P s (cs, s).
Proof. exists []; split; [reflexivity | constructor]. Qed.

Lemma consumed_trans (P : Z -> Prop) (s : str) (y z : mres) :
  consumed P s y -> consumed P (snd y) z -> consumed P s z.
Proof.
  intros [m [-> Hm]] [m' [E Hm']]. exists (m ++ m'); split.
  - rewrite E, app_assoc; reflexivity.
  - apply Forall_app; split; assumption.
Qed.

Lemma loop_sound (P : Z -> Prop) (body : caps -> str -> list mres) :
  (forall cs s y, In y (body cs s) -> consumed P s y) ->
  forall fuel lo hi greedy cs s y,
    In y (loop body fuel lo hi greedy cs s) -> consumed P s y.
Proof.
  intros Hbody; induction fuel as [|f IH]; intros lo hi greedy cs s y Hy.
  - simpl in Hy. destruct hi as [[|h]|]; destruct lo; simpl in Hy;
      try contradiction; destruct Hy as [<-|[]]; apply consumed_refl.
  - assert (Hagain : forall l,
      In y (flat_map (fun y0 : mres =>
              if Nat.eqb lo 0 && Nat.eqb (length (snd y0)) (length s) then []
              else loop body f (Nat.pred lo) (option_map Nat.pred hi) greedy
                     (fst y0) (snd y0)) l) ->
      (forall y0, In y0 l -> consumed P s y0) -> consumed P s y).
    { intros l Hin Hl. apply in_flat_map in Hin. destruct Hin as [y0 [H0 H1]].
      destruct (Nat.eqb lo 0 && Nat.eqb (length (snd y0)) (length s));
        [contradiction|].
      apply consumed_trans with y0; [apply Hl; exact H0 | eapply IH; exact H1]. }
    assert (Hb : forall y0, In y0 (body cs s) -> consumed P s y0)
      by (intros; eapply Hbody; eassumption).
    simpl in Hy. destruct hi as [[|h]|].
    + destruct Hy as [<-|[]]; apply consumed_refl.
    + destruct lo.
      * destruct greedy.
        -- apply in_app_or in Hy. destruct Hy as [Hy|[<-|[]]];
             [eapply Hagain; eassumption | apply consumed_refl].
        -- destruct Hy as [<-|Hy]; [apply consumed_refl | eapply Hagain; eassumption].
      * eapply Hagain; eassumption.
    + destruct lo.
      * destruct greedy.
        -- apply in_app_or in Hy. destruct Hy as [Hy|[<-|[]]];
             [eapply Hagain; eassumption | apply consumed_refl].
        -- destruct Hy as [<-|Hy]; [apply consumed_refl | eapply Hagain; eassumption].
      * eapply Hagain; eassumption.
Qed.

Lemma mt_sound (P : Z -> Prop) (r : regex) :
  chars_in P r ->
  forall cs s y, In y (mt r cs s) -> consumed P s y.
Proof.
  induction r as [|c|negated ranges|a IHa b IHb|a IHa b IHb|lo hi greedy a IHa|n a IHa];
    intros H cs s y Hy; simpl in *.
  - destruct Hy as [<-|[]]; apply consumed_refl.
  - destruct s as [|x t]; [contradiction|].
    destruct (Z.eqb_spec x c) as [->|]; [|contradiction].
    destruct Hy as [<-|[]]. exists [c]; split; [reflexivity | repeat constructor; exact H].
  - destruct s as [|x t]; [contradiction|].
    destruct (in_class negated ranges x) eqn:E; [|contradiction].
    destruct Hy as [<-|[]]. exists [x]; split; [reflexivity | repeat constructor; auto].
  - destruct H as [Ha Hb]. apply in_flat_map in Hy. destruct Hy as [y0 [H0 H1]].
    apply consumed_trans with y0; [eapply IHa | eapply IHb]; eassumption.
  - destruct H as [Ha Hb]. apply in_app_or in Hy.
    destruct Hy; [eapply IHa | eapply IHb]; eassumption.
  - eapply loop_sound; [|exact Hy]. intros; eapply IHa; eassumption.
  - apply in_map_iff in Hy. destruct Hy as [y0 [<- H0]]. simpl.
    destruct (IHa H cs s y0 H0) as [m [E Hm]]. exists m; split; assumption.
Qed.

Lemma chars_in_any (r : regex) : chars_in (fun _ => True) r.
Proof. induction r; simpl; auto. Qed.

(** A result of the matcher is a suffix of its input. *)
Lemma mt_suffix (r : regex) (cs : caps) (s : str) (y : mres) :
  In y (mt r cs s) -> exists m, s = m ++ snd y.
Proof.
  intros Hy. destruct (mt_sound _ r (chars_in_any r) cs s y Hy) as [m [E _]].
  exists m; exact E.
Qed.

Lemma flat_map_agree {A B : Type} (f g : A -> list B) (l : list A) :
  (forall x, In x l -> f x = g x) -> flat_map f l = flat_map g l.
Proof.
  induction l as [|x l IH]; intros H; [reflexivity|]. simpl.
  rewrite (H x) by (left; reflexivity). rewrite IH; [reflexivity|].
  intros; apply H; right; assumption.
Qed.

(** The fuel of a repetition is never exhausted: once it exceeds the
    iterations still required plus the length of the input, its amount no
    longer matters. *)
Lemma loop_fuel (body : caps -> str -> list mres) :
  (forall cs s y, In y (body cs s) -> (length (snd y) <= length s)%nat) ->
  forall f1 f2 lo hi greedy cs s,
    (lo + length s < f1)%nat -> (lo + length s < f2)%nat ->
    loop body f1 lo hi greedy cs s = loop body f2 lo hi greedy cs s.
Proof.
  intros Hbody. induction f1 as [|f1 IH]; intros f2 lo hi greedy cs s H1 H2; [lia|].
  destruct f2 as [|f2]; [lia|].
  assert (E : flat_map (fun y : mres =>
                if Nat.eqb lo 0 && Nat.eqb (length (snd y)) (length s) then []
                else loop body f1 (Nat.pred lo) (option_map Nat.pred hi) greedy
                       (fst y) (snd y)) (body cs s)
              = flat_map (fun y : mres =>
                if Nat.eqb lo 0 && Nat.eqb (length (snd y)) (length s) then []
                else loop body f2 (Nat.pred lo) (option_map Nat.pred hi) greedy
                       (fst y) (snd y)) (body cs s)).
  { apply flat_map_agree. intros y Hy. pose proof (Hbody cs s y Hy) as Hle.
    destruct (Nat.eqb lo 0 && Nat.eqb (length (snd y)) (length s)) eqn:Ec;
      [reflexivity|].
    apply IH.
    - destruct lo; [|simpl; lia].
      simpl in Ec. apply Nat.eqb_neq in Ec. simpl. lia.
    - destruct lo; [|simpl; lia].
      simpl in Ec. apply Nat.eqb_neq in Ec. simpl. lia. }
  simpl. rewrite E. reflexivity.
Qed.

Lemma mt_shorter (r : regex) (cs : caps) (s : str) (y : mres) :
  In y (mt r cs s) -> (length (snd y) <= length s)%nat.
Proof.
  intros Hy. apply mt_suffix in Hy. destruct Hy as [m ->].
  rewrite length_app. lia.
Qed.

Lemma mt_repeat_fuel (lo : nat) (hi : option nat) (greedy : bool) (a : regex)
    (cs : caps) (s : str) (fuel : nat) :
  (lo + length s < fuel)%nat ->
  mt (Repeat lo hi greedy a) cs s = loop (mt a) fuel lo hi greedy cs s.
Proof.
  intros H. cbn [mt]. apply loop_fuel; [intros; eapply mt_shorter; eassumption | lia | exact H].
Qed.

Lemma exec_at_none (r : regex) (s : str) :
  exec_at r s = None <-> mt r [] s = [].
Proof.
  unfold exec_at. destruct (mt r [] s) as [|[cs rest] l]; split; intro H;
    try reflexivity; discriminate.
Qed.

(** The reported match is a prefix of the input, made of characters the
    pattern can consume. *)
Lemma exec_at_some (P : Z -> Prop) (r : regex) (s : str) (cs : caps) (n : nat) :
  chars_in P r ->
  exec_at r s = Some (cs, n) ->
  (n <= length s)%nat /\ Forall P (firstn n s)
  /\ exists l, mt r [] s = (cs, skipn n s) :: l.
Proof.
  intros HP H. unfold exec_at in H.
  destruct (mt r [] s) as [|[cs' rest] l] eqn:E; [discriminate|].
  injection H as -> <-.
  destruct (mt_sound P r HP [] s (cs, rest)) as [m [Em Hm]];
    [rewrite E; left; reflexivity|].
  simpl in Em. subst s. rewrite length_app.
  replace (length m + length rest - length rest)%nat with (length m) by lia.
  repeat split.
  - lia.
  - rewrite firstn_app, Nat.sub_diag, firstn_all. simpl. rewrite app_nil_r. exact Hm.
  - exists l. rewrite skipn_app, Nat.sub_diag, skipn_all. reflexivity.
Qed.

Lemma exec_at_bound (r : regex) (s : str) (cs : caps) (n : nat) :
  exec_at r s = Some (cs, n) -> (n <= length s)%nat.
Proof.
  intros H. apply (exec_at_some (fun _ => True) r s cs n (chars_in_any r) H).
Qed.

(** ** The global scan *)

Lemma scan_skip (r : regex) (k : nat) (s : str) :
  (k <= length s)%nat -> scan r k s = scan r 0 (skipn k s).
Proof.
  revert s; induction k as [|k IH]; intros s Hk; [reflexivity|].
  destruct s as [|c t]; simpl in Hk; [lia|].
  simpl skipn. rewrite <- IH by lia. reflexivity.
Qed.

Lemma scan_nil (r : regex) :
  scan r 0 [] = match exec_at r [] with
                | Some (cs, _) => [Hit [] cs]
                | None => []
                end.
Proof.
  simpl. destruct (exec_at r []) as [[cs n]|]; [|reflexivity].
  rewrite firstn_nil. destruct n; reflexivity.
Qed.

Lemma scan_cons_none (r : regex) (c : Z) (t : str) :
  exec_at r (c :: t) = None -> scan r 0 (c :: t) = Gap c :: scan r 0 t.
Proof. intros H. simpl. rewrite H. reflexivity. Qed.

Lemma scan_cons_empty (r : regex) (c : Z) (t : str) (cs : caps) :
  exec_at r (c :: t) = Some (cs, O) ->
  scan r 0 (c :: t) = Hit [] cs :: Gap c :: scan r 0 t.
Proof. intros H. simpl. rewrite H. reflexivity. Qed.

Lemma scan_cons_hit (r : regex) (c : Z) (t : str) (cs : caps) (k : nat) :
  exec_at r (c :: t) = Some (cs, S k) ->
  scan r 0 (c :: t) = Hit (c :: firstn k t) cs :: scan r 0 (skipn k t).
Proof.
  intros H. pose proof (exec_at_bound _ _ _ _ H) as Hk. simpl in Hk.
  simpl. rewrite H. rewrite scan_skip by lia. reflexivity.
Qed.

(** Induction along the scan. *)
Lemma scan_induction (r : regex) (P : str -> list piece -> Prop) :
  (exec_at r [] = None -> P [] []) ->
  (forall cs n, exec_at r [] = Some (cs, n) -> P [] [Hit [] cs]) ->
  (forall c t, exec_at r (c :: t) = None ->
     P t (scan r 0 t) -> P (c :: t) (Gap c :: scan r 0 t)) ->
  (forall c t cs, exec_at r (c :: t) = Some (cs, O) ->
     P t (scan r 0 t) -> P (c :: t) (Hit [] cs :: Gap c :: scan r 0 t)) ->
  (forall c t cs k, exec_at r (c :: t) = Some (cs, S k) ->
     (k <= length t)%nat ->
     P (skipn k t) (scan r 0 (skipn k t)) ->
     P (c :: t) (Hit (c :: firstn k t) cs :: scan r 0 (skipn k t))) ->
  forall s, P s (scan r 0 s).
Proof.
  intros Hnil0 Hnil1 Hgap Hempty Hhit.
  assert (Pnil : P [] (scan r 0 [])).
  { rewrite scan_nil. destruct (exec_at r []) as [[cs k]|];
      [apply (Hnil1 cs k eq_refl) | apply Hnil0; reflexivity]. }
  assert (H : forall n s, (length s <= n)%nat -> P s (scan r 0 s)).
  { induction n as [|n IH]; intros s Hs.
    - destruct s; [exact Pnil | simpl in Hs; lia].
    - destruct s as [|c t]; [exact Pnil|].
      simpl in Hs. destruct (exec_at r (c :: t)) as [[cs [|k]]|] eqn:E.
      + rewrite (scan_cons_empty _ _ _ _ E). apply Hempty; [exact E|]. apply IH; lia.
      + pose proof (exec_at_bound _ _ _ _ E) as Hk. simpl in Hk.
        rewrite (scan_cons_hit _ _ _ _ _ E). apply Hhit; [exact E | lia |].
        apply IH. rewrite length_skipn. lia.
      + rewrite (scan_cons_none _ _ _ E). apply Hgap; [exact E|]. apply IH; lia. }
  intros s. apply (H (length s)). lia.
Qed.

(** A pattern that needs a character finds nothing in a text without it. *)
Lemma loop_first_fails (body : caps -> str -> list mres) (fuel lo : nat)
    (hi : option nat) (greedy : bool) (cs : caps) (s : str) :
  body cs s = [] -> lo <> O -> loop body fuel lo hi greedy cs s = [] \/ hi = Some O.
Proof.
  intros Hb Hlo. destruct hi as [[|h]|]; [right; reflexivity | left | left];
    destruct fuel; destruct lo; try congruence; simpl; try rewrite Hb; reflexivity.
Qed.

Lemma flat_map_nil {A B : Type} (f : A -> list B) (l : list A) :
  (forall x, In x l -> f x = []) -> flat_map f l = [].
Proof.
  induction l as [|x l IH]; intros H; [reflexivity|]. simpl.
  rewrite (H x) by (left; reflexivity). apply IH. intros; apply H; right; assumption.
Qed.

Lemma needs_sound (c : Z) (r : regex) :
  needs c r = true ->
  forall cs s, ~ In c s -> mt r cs s = [].
Proof.
  induction r as [|c'|negated ranges|a IHa b IHb|a IHa b IHb|lo hi greedy a IHa|n a IHa];
    simpl; intros H cs s Hs; try discriminate.
  - apply Z.eqb_eq in H; subst c'. destruct s as [|x t]; [reflexivity|].
    destruct (Z.eqb_spec x c) as [->|]; [|reflexivity].
    exfalso; apply Hs; left; reflexivity.
  - apply orb_true_iff in H. destruct H as [H|H].
    + rewrite (IHa H cs s Hs). reflexivity.
    + apply flat_map_nil. intros y Hy. apply IHb; [exact H|].
      destruct (mt_suffix _ _ _ _ Hy) as [m Em]. intros Hin. apply Hs.
      rewrite Em. apply in_or_app. right; exact Hin.
  - apply andb_true_iff in H. destruct H as [Ha Hb].
    rewrite (IHa Ha cs s Hs), (IHb Hb cs s Hs). reflexivity.
  - apply andb_true_iff in H. destruct H as [H Ha].
    apply andb_true_iff in H. destruct H as [Hlo Hhi].
    destruct (loop_first_fails (mt a) (lo + length s + 1) lo hi greedy cs s) as [E|E].
    + apply IHa; assumption.
    + intros ->; discriminate.
    + exact E.
    + subst hi; discriminate.
  - rewrite (IHa H cs s Hs). reflexivity.
Qed.

Lemma scan_without (c : Z) (r : regex) (s : str) :
  needs c r = true -> ~ In c s -> scan r 0 s = map Gap s.
Proof.
  intros Hn. induction s as [|x t IH]; intros Hs.
  - rewrite scan_nil. replace (exec_at r []) with (@None (caps * nat)); [reflexivity|].
    symmetry; apply exec_at_none. apply (needs_sound c); assumption.
  - rewrite scan_cons_none.
    + simpl. rewrite IH; [reflexivity|]. intros Hin; apply Hs; right; exact Hin.
    + apply exec_at_none. apply (needs_sound c); assumption.
Qed.

Lemma rebuild_gaps (v : replaceValue) (s : str) : rebuild v (map Gap s) = Ok s.
Proof. induction s as [|c t IH]; simpl; [|rewrite IH]; reflexivity. Qed.

(** A replacement whose pattern needs a character the text lacks leaves
    the text as it is. *)
Lemma replace_without (c : Z) (r : regex) (v : replaceValue) (s : str) :
  needs c r = true -> ~ In c s -> replace r v s = Ok s.
Proof.
  intros Hn Hs. unfold replace. rewrite (scan_without c) by assumption.
  apply rebuild_gaps.
Qed.

(** A greedy repetition of a character class over a run of the class
    followed by something else first consumes the whole run. *)
Section ClassLoop.
Variables (negated : bool) (ranges : list (Z * Z)).
Variable body : caps -> str -> list mres.
Hypothesis body_nil : forall cs, body cs [] = [].
Hypothesis body_cons : forall cs x t,
  body cs (x :: t) = if in_class negated ranges x then [(cs, t)] else [].

Lemma loop_class_head :
  forall (ds rest : str) (fuel lo : nat) (hi : option nat) (cs : caps),
    forallb (in_class negated ranges) ds = true ->
    match rest with [] => True | x :: _ => in_class negated ranges x = false end ->
    (lo <= length ds)%nat ->
    match hi with Some h => (length ds <= h)%nat | None => True end ->
    (length ds < fuel)%nat ->
    exists l, loop body fuel lo hi true cs (ds ++ rest) = (cs, rest) :: l.
Proof.
  induction ds as [|d ds IH]; intros rest fuel lo hi cs Hds Hrest Hlo Hhi Hfuel.
  - simpl in *. assert (lo = O) by lia; subst lo.
    destruct fuel as [|f]; [lia|].
    assert (Hb : body cs rest = []).
    { destruct rest as [|x t]; [apply body_nil|]. rewrite body_cons, Hrest; reflexivity. }
    destruct hi as [[|h]|]; simpl; try rewrite Hb; exists []; reflexivity.
  - simpl in Hds. apply andb_true_iff in Hds. destruct Hds as [Hd Hds].
    destruct fuel as [|f]; [simpl in Hfuel; lia|].
    assert (Hne : Nat.eqb (length (ds ++ rest)) (S (length (ds ++ rest))) = false)
      by (apply Nat.eqb_neq; lia).
    destruct (IH rest f (Nat.pred lo) (option_map Nat.pred hi) cs Hds Hrest) as [l El].
    + simpl in Hlo; lia.
    + destruct hi as [h|]; simpl in *; [lia | exact I].
    + simpl in Hfuel; lia.
    + assert (Hb : body cs (d :: ds ++ rest) = [(cs, ds ++ rest)])
        by (rewrite body_cons, Hd; reflexivity).
      destruct hi as [[|h]|]; [simpl in Hhi; lia | |];
        simpl in El; simpl; rewrite Hb; simpl; rewrite Hne, andb_false_r, El;
        destruct lo; eexists; reflexivity.
Qed.
End ClassLoop.

Lemma mt_class_head (negated : bool) (ranges : list (Z * Z))
    (lo : nat) (hi : option nat) (ds rest : str) (cs : caps) :
  forallb (in_class negated ranges) ds = true ->
  match rest with [] => True | x :: _ => in_class negated ranges x = false end ->
  (lo <= length ds)%nat ->
  match hi with Some h => (length ds <= h)%nat | None => True end ->
  exists l,
    mt (Repeat lo hi true (Class negated ranges)) cs (ds ++ rest) = (cs, rest) :: l.
Proof.
  intros Hds Hrest Hlo Hhi. cbn [mt].
  apply (loop_class_head negated ranges); try assumption; try reflexivity.
  rewrite length_app. lia.
Qed.

(** ** The first result of the matcher *)

Lemma hd_flat_map {A B : Type} (f : A -> list B) (l : list A) (x : A) (y : B) :
  hd_error l = Some x -> hd_error (f x) = Some y ->
  hd_error (flat_map f l) = Some y.
Proof.
  destruct l as [|x' l]; [discriminate|]. intros [= ->]. simpl.
  destruct (f x) as [|y' l']; [discriminate|]. intros [= ->]. reflexivity.
Qed.

Lemma hd_app {A : Type} (l l' : list A) (x : A) :
  hd_error l = Some x -> hd_error (l ++ l') = Some x.
Proof. destruct l; [discriminate|]. intros [= ->]. reflexivity. Qed.

Lemma hd_seq (a b : regex) (cs : caps) (s : str) (y z : mres) :
  hd_error (mt a cs s) = Some y ->
  hd_error (mt b (fst y) (snd y)) = Some z ->
  hd_error (mt (Seq a b) cs s) = Some z.
Proof. intros Ha Hb. cbn [mt]. eapply hd_flat_map; eassumption. Qed.

Lemma hd_group (n : nat) (a : regex) (cs : caps) (s : str) (y : mres) :
  hd_error (mt a cs s) = Some y ->
  hd_error (mt (Group n a) cs s)
  = Some ((n, firstn (length s - length (snd y)) s) :: fst y, snd y).
Proof.
  intros Ha. cbn [mt]. destruct (mt a cs s); [discriminate|].
  injection Ha as ->. reflexivity.
Qed.

Lemma hd_alt_l (a b : regex) (cs : caps) (s : str) (y : mres) :
  hd_error (mt a cs s) = Some y -> hd_error (mt (Alt a b) cs s) = Some y.
Proof. intros Ha. cbn [mt]. apply hd_app; exact Ha. Qed.

Lemma hd_alt_r (a b : regex) (cs : caps) (s : str) (y : mres) :
  mt a cs s = [] -> hd_error (mt b cs s) = Some y ->
  hd_error (mt (Alt a b) cs s) = Some y.
Proof. intros Ha Hb. cbn [mt]. rewrite Ha. exact Hb. Qed.

Lemma hd_class_run (negated : bool) (ranges : list (Z * Z))
    (lo : nat) (hi : option nat) (ds rest : str) (cs : caps) :
  forallb (in_class negated ranges) ds = true ->
  match rest with [] => True | x :: _ => in_class negated ranges x = false end ->
  (lo <= length ds)%nat ->
  match hi with Some h => (length ds <= h)%nat | None => True end ->
  hd_error (mt (Repeat lo hi true (Class negated ranges)) cs (ds ++ rest))
  = Some (cs, rest).
Proof.
  intros Hds Hrest Hlo Hhi.
  destruct (mt_class_head negated ranges lo hi ds rest cs Hds Hrest Hlo Hhi) as [l ->].
  reflexivity.
Qed.

Lemma loop_done (body : caps -> str -> list mres) (fuel lo : nat)
    (greedy : bool) (cs : caps) (s : str) :
  loop body fuel lo (Some O) greedy cs s = [(cs, s)].
Proof. destruct fuel; reflexivity. Qed.

(** An optional part that matches and consumes something is taken. *)
Lemma hd_opt_some (a : regex) (cs : caps) (s : str) (y : mres) :
  hd_error (mt a cs s) = Some y ->
  length (snd y) <> length s ->
  hd_error (mt (opt a) cs s) = Some y.
Proof.
  intros Ha Hlen. unfold opt. cbn [mt]. rewrite Nat.add_1_r.
  cbn [Nat.add loop]. apply hd_app. eapply hd_flat_map; [exact Ha|].
  apply Nat.eqb_neq in Hlen. rewrite Hlen. simpl. rewrite loop_done.
  destruct y; reflexivity.
Qed.

(** An optional part that does not match is skipped. *)
Lemma hd_opt_none (a : regex) (cs : caps) (s : str) :
  mt a cs s = [] -> hd_error (mt (opt a) cs s) = Some (cs, s).
Proof.
  intros Ha. unfold opt. cbn [mt]. rewrite Nat.add_1_r.
  cbn [Nat.add loop]. rewrite Ha. reflexivity.
Qed.

Lemma hd_exec_at (r : regex) (s : str) (cs : caps) (rest : str) :
  hd_error (mt r [] s) = Some (cs, rest) ->
  exec_at r s = Some (cs, (length s - length rest)%nat).
Proof.
  intros H. unfold exec_at. destruct (mt r [] s) as [|[cs' rest'] l]; [discriminate|].
  injection H as -> ->. reflexivity.
Qed.

(** A match of the whole of a text is the only piece of its scan. *)
Lemma scan_whole (r : regex) (s : str) (cs : caps) :
  s <> [] -> exec_at r s = Some (cs, length s) -> exec_at r [] = None ->
  scan r 0 s = [Hit s cs].
Proof.
  intros Hs He Hn. destruct s as [|c t]; [congruence|]. simpl length in He.
  rewrite (scan_cons_hit _ _ _ _ _ He), firstn_all, skipn_all, scan_nil, Hn.
  reflexivity.
Qed.

(** ** Digits *)

Lemma in_class_digit (c : Z) : in_class false [(48, 57)] c = is_digit c.
Proof. unfold in_class, in_ranges, is_digit. simpl. rewrite orb_false_r. reflexivity. Qed.

Lemma forallb_digit (ds : str) :
  forallb (in_class false [(48, 57)]) ds = forallb is_digit ds.
Proof.
  induction ds as [|d ds IH]; [reflexivity|]. cbn [forallb].
  rewrite in_class_digit, IH. reflexivity.
Qed.

Lemma digits_value_stop (ds r : str) (x acc : Z) :
  forallb is_digit ds = true -> is_digit x = false ->
  digits_value acc (ds ++ x :: r) = digits_value acc ds.
Proof.
  revert acc; induction ds as [|d ds IH]; intros acc Hds Hx; simpl.
  - rewrite Hx. reflexivity.
  - simpl in Hds. apply andb_true_iff in Hds. destruct Hds as [Hd Hds].
    rewrite Hd. apply IH; assumption.
Qed.

Lemma digit_not_in (c : Z) (ds : str) :
  forallb is_digit ds = true -> is_digit c = false -> ~ In c ds.
Proof.
  intros Hds Hc Hin. rewrite forallb_forall in Hds. rewrite (Hds c Hin) in Hc.
  discriminate.
Qed.

Lemma parseInt_digits (ds : str) :
  forallb is_digit ds = true -> ds <> [] ->
  parseInt (Some ds) = Some (digits_value 0 ds).
Proof.
  intros Hds Hne. destruct ds as [|d ds]; [congruence|]. simpl in Hds.
  apply andb_true_iff in Hds. destruct Hds as [Hd _]. unfold parseInt. rewrite Hd.
  reflexivity.
Qed.

(** Source literals are replaced by their code units. *)
Ltac js_norm :=
  repeat match goal with
         | |- context [js ?t] =>
           let v := eval vm_compute in (js t) in change (js t) with v
         end.

(** ** Amounts *)

Lemma amount_exec (ds : str) :
  forallb is_digit ds = true -> (4 <= length ds)%nat ->
  exec_at amount_pattern (ds ++ js "万円")
  = Some ([(2%nat, js "万円"); (1%nat, ds)], length (ds ++ js "万円")).
Proof.
  intros Hds Hlen. rewrite <- forallb_digit in Hds.
  unfold amount_pattern, at_least, digit. js_norm.
  assert (H1 : hd_error (mt (Group 1 (Repeat 4 None true (Class false [(48, 57)])))
                            [] (ds ++ [19975; 20870]))
               = Some ([(1%nat, ds)], [19975; 20870])).
  { erewrite hd_group;
      [|apply hd_class_run; [exact Hds | reflexivity | exact Hlen | exact I]].
    cbn [snd fst]. rewrite length_app, Nat.add_sub.
    rewrite firstn_app, Nat.sub_diag, firstn_all. simpl. rewrite app_nil_r.
    reflexivity. }
  rewrite (hd_exec_at _ _ [(2%nat, [19975; 20870]); (1%nat, ds)] []);
    [|eapply hd_seq; [exact H1 | reflexivity]].
  cbn [length]. rewrite Nat.sub_0_r. reflexivity.
Qed.

Lemma not_in_app (c : Z) (a b : str) : ~ In c a -> ~ In c b -> ~ In c (a ++ b).
Proof. intros Ha Hb H. apply in_app_or in H. tauto. Qed.

(** What [obscureNumbers] makes of an amount written with four or more
    digits before 万円. *)
Lemma obscure_amount (ds : str) :
  forallb is_digit ds = true -> (4 <= length ds)%nat ->
  obscureNumbers (ds ++ js "万円")
  = Ok (if 10000 <=? digits_value 0 ds then js "数億円"
        else if 1000 <=? digits_value 0 ds then js "数千万円"
        else ds ++ js "万円").
Proof.
  intros Hds Hlen.
  assert (Hne : ds <> []) by (destruct ds; [simpl in Hlen; lia | discriminate]).
  assert (Hne' : ds ++ js "万円" <> []) by (destruct ds; [congruence | discriminate]).
  unfold obscureNumbers, replace at 1.
  rewrite (scan_whole _ _ _ Hne' (amount_exec ds Hds Hlen) eq_refl).
  cbn [rebuild apply_replacement pure_fn bind]. rewrite app_nil_r.
  unfold amount_band. cbn [capture Nat.eqb].
  rewrite parseInt_digits by assumption.
  cbn [ge].
  destruct (10000 <=? digits_value 0 ds); [reflexivity|].
  destruct (1000 <=? digits_value 0 ds); [reflexivity|].
  apply (replace_without 37); [reflexivity|].
  apply not_in_app; [apply digit_not_in; [exact Hds | reflexivity]|].
  vm_compute. intuition discriminate.
Qed.

Lemma magnitude_unchanged (ds : str) :
  forallb is_digit ds = true -> ds <> [] ->
  magnitude (ds ++ js "万円") = digits_value 0 ds.
Proof.
  intros Hds Hne. unfold magnitude, str_eqb. js_norm.
  destruct ds as [|d ds]; [congruence|].
  simpl in Hds. apply andb_true_iff in Hds. destruct Hds as [Hd Hds].
  assert (d <> 25968) by (intros ->; discriminate).
  destruct (list_eq_dec Z.eq_dec ((d :: ds) ++ [19975; 20870]) [25968; 20740; 20870])
    as [E|_]; [injection E; intros; contradiction|].
  destruct (list_eq_dec Z.eq_dec ((d :: ds) ++ [19975; 20870])
              [25968; 21315; 19975; 20870])
    as [E|_]; [injection E; intros; contradiction|].
  apply (digits_value_stop (d :: ds)); [|reflexivity].
  simpl. rewrite Hd. exact Hds.
Qed.

(** C6: banding of amounts is monotone.  For two amounts written with four
    or more digits before 万円, the larger amount never receives a text of
    smaller magnitude; the bands start at 1000 and at 10000. *)
Theorem amount_banding_monotone :
  forall d1 d2 : str,
    forallb is_digit d1 = true -> forallb is_digit d2 = true ->
    (4 <= length d1)%nat -> (4 <= length d2)%nat ->
    digits_value 0 d1 < digits_value 0 d2 ->
    exists l1 l2,
      obscureNumbers (d1 ++ js "万円") = Ok l1
      /\ obscureNumbers (d2 ++ js "万円") = Ok l2
      /\ magnitude l1 <= magnitude l2.
Proof.
  intros d1 d2 H1 H2 L1 L2 Hlt.
  assert (N1 : d1 <> []) by (destruct d1; [simpl in L1; lia | discriminate]).
  assert (N2 : d2 <> []) by (destruct d2; [simpl in L2; lia | discriminate]).
  eexists; eexists. split; [apply obscure_amount; assumption|].
  split; [apply obscure_amount; assumption|].
  pose proof (magnitude_unchanged d1 H1 N1) as M1.
  pose proof (magnitude_unchanged d2 H2 N2) as M2.
  destruct (Z.leb_spec 10000 (digits_value 0 d1));
    destruct (Z.leb_spec 10000 (digits_value 0 d2));
    destruct (Z.leb_spec 1000 (digits_value 0 d1));
    destruct (Z.leb_spec 1000 (digits_value 0 d2));
    try lia; try rewrite M1; try rewrite M2;
    try (change (magnitude (js "数億円")) with 10000);
    try (change (magnitude (js "数千万円")) with 1000); lia.
Qed.

Lemma amount_banding_monotone_witness :
  exists l1 l2,
    obscureNumbers (js "0999" ++ js "万円") = Ok l1
    /\ obscureNumbers (js "12000" ++ js "万円") = Ok l2
    /\ magnitude l1 <= magnitude l2.
Proof.
  apply (amount_banding_monotone (js "0999") (js "12000"));
    vm_compute; (reflexivity || lia || (intros; discriminate) || idtac).
  all: repeat constructor.
Defined.

(** ** Percentages *)

Lemma percent_exec (ds frac : str) :
  forallb is_digit ds = true ->
  (length ds = 2 \/ length ds = 3)%nat ->
  (frac = [] \/ exists fs, fs <> [] /\ forallb is_digit fs = true /\ frac = 46 :: fs) ->
  exists cs,
    exec_at percent_pattern (ds ++ frac ++ [37])
    = Some (cs, length (ds ++ frac ++ [37]))
    /\ capture 1 cs = Some ds.
Proof.
  intros Hds Hlen Hfrac. rewrite <- forallb_digit in Hds.
  unfold percent_pattern, seqs, between, digit.
  assert (H1 : hd_error (mt (Group 1 (Repeat 2 (Some 3%nat) true (Class false [(48, 57)])))
                            [] (ds ++ frac ++ [37]))
               = Some ([(1%nat, ds)], frac ++ [37])).
  { erewrite hd_group;
      [|apply hd_class_run; [exact Hds | | lia | lia];
        destruct Hfrac as [->|[fs [_ [_ ->]]]]; reflexivity].
    cbn [snd fst]. rewrite length_app, Nat.add_sub.
    rewrite firstn_app, Nat.sub_diag, firstn_all. simpl. rewrite app_nil_r.
    reflexivity. }
  destruct Hfrac as [->|[fs [Hne [Hfs ->]]]].
  - exists [(1%nat, ds)]. split; [|reflexivity].
    rewrite (hd_exec_at _ _ [(1%nat, ds)] []);
      [|eapply hd_seq; [exact H1 | reflexivity]].
    cbn [length]. rewrite Nat.sub_0_r. reflexivity.
  - rewrite <- forallb_digit in Hfs.
    exists [(2%nat, 46 :: fs); (1%nat, ds)]. split; [|reflexivity].
    rewrite (hd_exec_at _ _ [(2%nat, 46 :: fs); (1%nat, ds)] []).
    + cbn [length]. rewrite Nat.sub_0_r. reflexivity.
    + eapply hd_seq; [exact H1|]. cbn [fst snd].
      apply (hd_seq _ _ _ _ ([(2%nat, 46 :: fs); (1%nat, ds)], [37]));
        [|reflexivity].
      apply hd_opt_some; [|cbn [snd app length]; rewrite length_app; simpl; lia].
      change ((46 :: fs) ++ [37]) with (46 :: fs ++ [37]).
      assert (H2 : hd_error (mt (Seq (Char 46) (Repeat 1 None true (Class false [(48, 57)])))
                                [(1%nat, ds)] (46 :: fs ++ [37]))
                   = Some ([(1%nat, ds)], [37])).
      { apply (hd_seq _ _ _ _ ([(1%nat, ds)], fs ++ [37])); [reflexivity|].
        cbn [fst snd]. apply hd_class_run; [exact Hfs | reflexivity | | exact I].
        destruct fs; [congruence | simpl; lia]. }
      unfold plus. rewrite (hd_group _ _ _ _ _ H2).
      cbn [snd fst].
      change (46 :: fs ++ [37]) with ((46 :: fs) ++ [37]).
      rewrite length_app, Nat.add_sub.
      rewrite firstn_app, Nat.sub_diag, firstn_all. simpl. rewrite app_nil_r.
      reflexivity.
Qed.

(** A token of two or three digits, an optional decimal part and the
    percent sign is banded by the value of its digits. *)
Lemma obscure_percent (ds frac : str) :
  forallb is_digit ds = true ->
  (length ds = 2 \/ length ds = 3)%nat ->
  (frac = [] \/ exists fs, fs <> [] /\ forallb is_digit fs = true /\ frac = 46 :: fs) ->
  obscureNumbers (ds ++ frac ++ js "%") = Ok (percent_label (digits_value 0 ds)).
Proof.
  intros Hds Hlen Hfrac. js_norm.
  assert (Hne : ds <> []) by (destruct ds; [simpl in Hlen; lia | discriminate]).
  assert (Hne' : ds ++ frac ++ [37] <> []) by (destruct ds; [congruence | discriminate]).
  unfold obscureNumbers. rewrite (replace_without 19975); [|reflexivity|].
  - cbn [bind]. unfold replace.
    destruct (percent_exec ds frac Hds Hlen Hfrac) as [cs [He Hc]].
    rewrite (scan_whole _ _ _ Hne' He eq_refl).
    cbn [rebuild apply_replacement pure_fn bind]. rewrite app_nil_r.
    unfold percent_band, percent_label. rewrite Hc, parseInt_digits by assumption.
    reflexivity.
  - apply not_in_app; [apply digit_not_in; [exact Hds | reflexivity]|].
    apply not_in_app; [|simpl; intuition discriminate].
    destruct Hfrac as [->|[fs [_ [Hfs ->]]]]; [intros []|].
    intros [E|Hin]; [discriminate|].
    revert Hin. apply digit_not_in; [exact Hfs | reflexivity].
Qed.

Lemma digit_cases (d : Z) :
  is_digit d = true ->
  d = 48 \/ d = 49 \/ d = 50 \/ d = 51 \/ d = 52 \/ d = 53 \/ d = 54 \/ d = 55
  \/ d = 56 \/ d = 57.
Proof.
  unfold is_digit. rewrite andb_true_iff, !Z.leb_le. lia.
Qed.

(** A single digit before the percent sign is not a token of the
    percentage pattern. *)
Lemma obscure_single_digit (d : Z) :
  is_digit d = true -> obscureNumbers (d :: js "%") = Ok (d :: js "%").
Proof.
  intros Hd. apply digit_cases in Hd.
  repeat (destruct Hd as [->|Hd]; [vm_compute; reflexivity|]).
  subst d. vm_compute. reflexivity.
Qed.

(** C3: percentage banding.  Every token of two or three digits followed by
    an optional decimal part and the percent sign is replaced by the band
    of the value of those digits, one of the five ranges (so 85% gives
    80%以上, 55% gives 50%以上, 35% gives 約30-50%, 15% gives 10%以上 and
    05% gives 10%未満); a token with a single digit, such as 5%, is left
    as it is. *)
Theorem percent_banding :
  (forall ds frac : str,
     forallb is_digit ds = true ->
     (length ds = 2 \/ length ds = 3)%nat ->
     (frac = [] \/
      exists fs, fs <> [] /\ forallb is_digit fs = true /\ frac = js "." ++ fs) ->
     obscureNumbers (ds ++ frac ++ js "%")
     = Ok (percent_label (digits_value 0 ds)))
  /\ (forall d : Z,
        is_digit d = true -> obscureNumbers (d :: js "%") = Ok (d :: js "%"))
  /\ obscureNumbers (js "85%") = Ok (js "80%以上")
  /\ obscureNumbers (js "55%") = Ok (js "50%以上")
  /\ obscureNumbers (js "35%") = Ok (js "約30-50%")
  /\ obscureNumbers (js "15%") = Ok (js "10%以上")
  /\ obscureNumbers (js "05%") = Ok (js "10%未満")
  /\ obscureNumbers (js "5%") = Ok (js "5%").
Proof.
  split; [exact obscure_percent|]. split; [exact obscure_single_digit|].
  repeat split; vm_compute; reflexivity.
Qed.

Lemma percent_banding_witness :
  obscureNumbers (js "55" ++ (js "." ++ js "5") ++ js "%")
  = Ok (percent_label (digits_value 0 (js "55")))
  /\ obscureNumbers (53 :: js "%") = Ok (53 :: js "%").
Proof.
  split.
  - apply (proj1 percent_banding (js "55") (js "." ++ js "5")).
    + reflexivity.
    + left; reflexivity.
    + right. exists (js "5"). split; [discriminate | split; reflexivity].
  - apply (proj1 (proj2 percent_banding) 53). reflexivity.
Defined.

(** The single-digit example of the five-range table does not hold. *)
Lemma percent_single_digit_counterexample :
  obscureNumbers (js "5%") <> Ok (js "10%未満").
Proof. vm_compute. discriminate. Qed.

(** ** Dates *)

(** C4: date generalization.  The first replacement truncates 2024年3月15日
    to 2024年3月; the second then rewrites the year of that text as well,
    so the function returns the relative year followed by 3月, which is
    昨年3月 when the current year is 2025.  In 2025 the bare token 2023年
    becomes 一昨年 and 2025年 becomes 今年. *)
Theorem date_generalization :
  replace full_date_pattern (Fn to_year_month) (js "2024年3月15日")
  = Ok (js "2024年3月")
  /\ (forall currentYear : Z,
        generalizeDates currentYear (js "2024年3月15日")
        = Ok (relative_year (Some (currentYear - 2024)) ++ js "3月"))
  /\ generalizeDates 2025 (js "2024年3月15日") = Ok (js "昨年3月")
  /\ generalizeDates 2025 (js "2023年") = Ok (js "一昨年")
  /\ generalizeDates 2025 (js "2025年") = Ok (js "今年").
Proof.
  split; [vm_compute; reflexivity|].
  split; [intros currentYear; vm_compute; reflexivity|].
  repeat split; vm_compute; reflexivity.
Qed.

(** In 2025 the full date does not come out as 2024年3月, nor 2023年 as
    2年前. *)
Lemma date_generalization_counterexample :
  ~ (generalizeDates 2025 (js "2024年3月15日") = Ok (js "2024年3月")
     /\ generalizeDates 2025 (js "2023年") = Ok (js "2年前")
     /\ generalizeDates 2025 (js "2025年") = Ok (js "今年")).
Proof. vm_compute. intros [H _]. discriminate H. Qed.

(** ** The pipeline on examples *)


(** The placeholder address is itself a match of the email rule. *)
Lemma idempotence_counterexample :
  anonymize 2025 (js "a@b.cd") [] = Ok (js "contact@example.com")
  /\ match_all (rule_pattern "email") (js "contact@example.com")
     = [js "contact@example.com"].
Proof. split; vm_compute; reflexivity. Qed.

(** C8: a record whose category names a method of [Object.prototype] makes
    [getGenericReplacement] return that method, and [replace] calls it for
    the match of the title; [valueOf] then throws, so [anonymize] does not
    return normally. *)
Theorem anonymize_throws :
  getGenericReplacement (js "valueOf") = Builtin ValueOf
  /\ anonymize 2025 (js "来期計画の概要") [confidential "来期計画" "valueOf"]
     = Throw TypeError.
Proof. split; vm_compute; reflexivity. Qed.

(** ** The replacement texts and the rule patterns *)

Ltac closed_retrigger :=
  vm_compute; split;
  [ intros H;
    first [ exfalso; apply H; reflexivity
          | split; [reflexivity | first [left; reflexivity | right; reflexivity]] ]
  | intros [K1 K2];
    first [ discriminate K1
          | destruct K2 as [K2|K2]; discriminate K2
          | intros E; discriminate E ] ].

(** C2: the replacement vocabulary and the rule patterns.  Whatever a rule
    writes for a match, the text written contains a match of a rule only
    in two cases: the placeholder of the email rule is a match of the
    email rule, and each label of the productName rule is a match of the
    productName rule.  The texts of the other five rules contain no match
    of any of the seven patterns. *)
Theorem replacement_retrigger :
  forall r1 r2 : rule,
    In r1 anonymizationRules -> In r2 anonymizationRules ->
    forall (m : str) (cs : caps) (out : str),
      apply_replacement (replacement r1) m cs = Ok out ->
      (match_all (pattern r2) out <> []
       <-> key r1 = key r2
           /\ (key r1 = js "email" \/ key r1 = js "productName")).
Proof.
  intros r1 r2 H1 H2 m cs out Hout.
  unfold anonymizationRules in H1.
  repeat (destruct H1 as [<-|H1]); try contradiction;
    cbn [replacement apply_replacement pure_fn] in Hout;
    unfold specificNumbers_replacement, productName_replacement in Hout;
    repeat match type of Hout with
           | context [if ?b then _ else _] => destruct b
           end;
    injection Hout as <-;
    unfold anonymizationRules in H2;
    repeat (destruct H2 as [<-|H2]); try contradiction;
    closed_retrigger.
Qed.

Lemma replacement_retrigger_witness :
  match_all email_pattern (js "contact@example.com") <> []
  <-> js "email" = js "email"
      /\ (js "email" = js "email" \/ js "email" = js "productName").
Proof.
  apply (replacement_retrigger
           {| key := js "email"; pattern := email_pattern;
              replacement := Str (js "contact@example.com") |}
           {| key := js "email"; pattern := email_pattern;
              replacement := Str (js "contact@example.com") |}
           ltac:(right; right; left; reflexivity)
           ltac:(right; right; left; reflexivity)
           (js "a@b.cd") [] (js "contact@example.com")).
  reflexivity.
Defined.

(** ** Risk level *)

(** A pattern that matches at every occurrence of [w] is found in every
    text that contains [w]. *)
Lemma test_occurrence (r : regex) (w s : str) :
  (forall post, exec_at r (w ++ post) <> None) ->
  occurs w s -> test r s = true.
Proof.
  intros Hw [a [b ->]]. unfold test. induction a as [|x a IH].
  - simpl app. destruct (w ++ b) as [|c t] eqn:E.
    + specialize (Hw b). rewrite E in Hw. simpl.
      destruct (exec_at r []) as [[cs n]|]; [reflexivity | congruence].
    + specialize (Hw b). rewrite E in Hw. simpl.
      destruct (exec_at r (c :: t)) as [[cs n]|]; [reflexivity | congruence].
  - simpl. destruct (exec_at r (x :: a ++ w ++ b)) as [[cs n]|]; [reflexivity|].
    exact IH.
Qed.

Lemma money_found (content : str) :
  includes content (js "1億円") = true -> test money_pattern content = true.
Proof.
  intros H. apply includes_iff in H. apply (test_occurrence _ (js "1億円")); [|exact H].
  intros post. vm_compute. discriminate.
Qed.

Lemma percent_found (content : str) :
  includes content (js "50%") = true -> test any_percent_pattern content = true.
Proof.
  intros H. apply includes_iff in H. apply (test_occurrence _ (js "50%")); [|exact H].
  intros post. js_norm. unfold any_percent_pattern, plus, digit.
  rewrite (hd_exec_at _ _ [] post); [discriminate|].
  apply (hd_seq _ _ _ _ ([], 37 :: post)); [|reflexivity].
  apply (hd_class_run false [(48, 57)] 1 None [53; 48] (37 :: post));
    [reflexivity | reflexivity | simpl; lia | exact I].
Qed.

(** C7: the risk scenario.  A text that contains 売上, the amount 1億円
    and the percentage 50%, that has exactly two quoted spans, none of the
    other keywords of the list and no full date scores
    10 + 20 + 10 + 10 = 50 and is rated high. *)
Theorem risk_scenario :
  forall content : str,
    includes content (js "売上") = true ->
    includes content (js "1億円") = true ->
    includes content (js "50%") = true ->
    length (match_all quoted_pattern content) = 2%nat ->
    (forall keyword, In keyword highRiskKeywords -> keyword <> js "売上" ->
                     includes content keyword = false) ->
    test full_date_pattern content = false ->
    risk_score content = 10 + 20 + 10 + 10
    /\ determineAnonymizationLevel content = high.
Proof.
  intros content Hk Hm Hp Hq Hother Hdate.
  assert (Hs : risk_score content = 50).
  { unfold risk_score. rewrite (money_found _ Hm), (percent_found _ Hp), Hdate.
    destruct (match_all quoted_pattern content) as [|q1 [|q2 [|q3 l]]];
      try discriminate.
    unfold keyword_score, highRiskKeywords. cbn [fold_left]. rewrite Hk.
    repeat (rewrite Hother;
            [ | repeat (first [left; reflexivity | right])
              | vm_compute; discriminate ]).
    reflexivity. }
  split; [exact Hs|]. unfold determineAnonymizationLevel. rewrite Hs. reflexivity.
Qed.

Lemma risk_scenario_witness :
  risk_score (js "売上は1億円で前期の50%増、「A」と「B」が好調") = 10 + 20 + 10 + 10
  /\ determineAnonymizationLevel (js "売上は1億円で前期の50%増、「A」と「B」が好調") = high.
Proof.
  apply (risk_scenario (js "売上は1億円で前期の50%増、「A」と「B」が好調"));
    try (vm_compute; reflexivity).
  intros keyword Hin Hne. unfold highRiskKeywords in Hin.
  repeat (destruct Hin as [<-|Hin]; [first [vm_compute; reflexivity | exfalso; apply Hne; reflexivity]|]).
  destruct Hin.
Defined.

(** ** The entries of the report *)

Lemma after_colon_entry (k rest : str) :
  ~ In 58 k -> after_colon (k ++ 58 :: 32 :: rest) = Some rest.
Proof.
  induction k as [|x k IH]; intros Hk; [reflexivity|].
  simpl. destruct (Z.eqb_spec x 58) as [->|_].
  - exfalso; apply Hk; left; reflexivity.
  - apply IH. intros H; apply Hk; right; exact H.
Qed.

Lemma read_count_uint (d : Decimal.uint) (acc : nat) :
  read_count acc (uint_chars d ++ [20214]) = Some (Nat.of_uint_acc d acc).
Proof.
  revert acc; induction d; intros acc; [reflexivity | ..];
    cbn [uint_chars app read_count Nat.of_uint_acc];
    match goal with
    | |- context [is_digit ?c] => change (is_digit c) with true
    end;
    cbv iota; rewrite IHd; f_equal; f_equal; rewrite Nat.tail_mul_spec;
    simpl Z.to_nat; lia.
Qed.

Lemma entry_count_entry (k : str) (n : nat) :
  ~ In 58 k -> entry_count (entry k n) = Some n.
Proof.
  intros Hk. unfold entry_count, entry.
  change (js ": ") with [58; 32]. change (js "件") with [20214].
  change (k ++ [58; 32] ++ nat_to_str n ++ [20214])
    with (k ++ 58 :: 32 :: nat_to_str n ++ [20214]).
  rewrite after_colon_entry by exact Hk. unfold nat_to_str.
  rewrite read_count_uint. change (Nat.of_uint_acc (Nat.to_uint n) 0)
    with (Nat.of_uint (Nat.to_uint n)).
  rewrite Unsigned.of_to. reflexivity.
Qed.

Lemma sum_counts_snoc (es : list str) (e : str) (m n : nat) :
  sum_counts es = Some m -> entry_count e = Some n ->
  sum_counts (es ++ [e]) = Some (m + n)%nat.
Proof.
  revert m; induction es as [|x es IH]; intros m Hes He; simpl in *.
  - injection Hes as <-. rewrite He. f_equal. lia.
  - destruct (entry_count x) as [a|]; [|discriminate].
    destruct (sum_counts es) as [b|]; [|discriminate].
    injection Hes as <-. rewrite (IH b eq_refl He). f_equal. lia.
Qed.

Lemma tally_consistent (rules : list rule) (original : str) :
  Forall (fun r => ~ In 58 (key r)) rules ->
  forall acc : nat * list str,
    sum_counts (snd acc) = Some (fst acc) ->
    (snd acc = [] <-> fst acc = O) ->
    sum_counts (snd (tally rules original acc))
    = Some (fst (tally rules original acc))
    /\ (snd (tally rules original acc) = []
        <-> fst (tally rules original acc) = O).
Proof.
  induction rules as [|r rules IH]; intros Hkeys acc Hsum Hiff; [split; assumption|].
  inversion Hkeys as [|? ? Hr Hrest]; subst.
  cbn [tally]. destruct (match_all (pattern r) original) as [|m ms] eqn:E.
  - apply IH; assumption.
  - apply IH; [assumption | |]; cbn [fst snd].
    + apply sum_counts_snoc; [exact Hsum|]. apply entry_count_entry; exact Hr.
    + split; [intros H; destruct (snd acc); discriminate H | simpl; lia].
Qed.

(** C10: the report is consistent with itself.  The count is the sum of
    the counts written in the entries, and there is no entry exactly when
    the count is zero. *)
Theorem report_consistent :
  forall original anonymized : str,
    sum_counts (removedInfo (generateAnonymizationReport original anonymized))
    = Some (changedCount (generateAnonymizationReport original anonymized))
    /\ (removedInfo (generateAnonymizationReport original anonymized) = []
        <-> changedCount (generateAnonymizationReport original anonymized) = O).
Proof.
  intros original anonymized. unfold generateAnonymizationReport.
  cbn [removedInfo changedCount].
  apply tally_consistent; [|reflexivity|split; reflexivity].
  unfold anonymizationRules. repeat constructor; cbn [key]; vm_compute; intuition discriminate.
Qed.

(** ** Occurrences across a replacement *)

Lemma occurs_nil (s : str) : occurs [] s.
Proof. exists [], s; reflexivity. Qed.

(** A text cannot begin inside a run of characters it does not contain. *)
Lemma occurs_past (w r b : str) :
  (forall c, In c r -> ~ In c w) -> occurs w (r ++ b) -> occurs w b.
Proof.
  intros Hr. induction r as [|c r IH]; intros H; [exact H|].
  destruct H as [p [q E]]. destruct p as [|x p].
  - destruct w as [|y w]; [apply occurs_nil|].
    simpl in E. injection E as <- _. exfalso. apply (Hr c); left; reflexivity.
  - simpl in E. injection E as _ E. apply IH.
    + intros c' Hc'. apply Hr; right; exact Hc'.
    + exists p, q; exact E.
Qed.

Lemma prefix_before (w a r b q : str) :
  r <> [] -> (forall c, In c r -> ~ In c w) ->
  a ++ r ++ b = w ++ q -> exists a', a = w ++ a'.
Proof.
  intros Hne Hr. revert a; induction w as [|y w IH]; intros a E.
  - exists a; reflexivity.
  - destruct a as [|x a].
    + destruct r as [|c r]; [congruence|]. simpl in E. injection E as -> _.
      exfalso. apply (Hr y); left; reflexivity.
    + simpl in E. injection E as -> E. destruct (IH ltac:(intros c Hc Hw; apply (Hr c Hc); right; exact Hw) a E) as [a' ->].
      exists a'; reflexivity.
Qed.

(** A text that shares no character with a non-empty run lies on one side
    of the run. *)
Lemma occurs_split (w a r b : str) :
  r <> [] -> (forall c, In c r -> ~ In c w) ->
  occurs w (a ++ r ++ b) -> occurs w a \/ occurs w b.
Proof.
  intros Hne Hr. induction a as [|x a IH]; intros H.
  - right. apply (occurs_past w r b Hr H).
  - destruct H as [p [q E]]. destruct p as [|y p].
    + left. simpl in E.
      destruct (prefix_before w (x :: a) r b q Hne Hr E) as [a' ->].
      exists [], a'; reflexivity.
    + simpl in E. injection E as _ E.
      destruct (IH (ex_intro _ p (ex_intro _ q E))) as [[p' [q' ->]]|Hb].
      * left. exists (x :: p'), q'; reflexivity.
      * right; exact Hb.
Qed.


Lemma bind_ok {A B : Type} (x : result A) (f : A -> result B) (b : B) :
  bind x f = Ok b -> exists a, x = Ok a /\ f a = Ok b.
Proof. destruct x as [a|e]; [intros H; exists a; split; [reflexivity | exact H] | discriminate]. Qed.

Section Replacement.
Variables (r : regex) (v : replaceValue).


(** A replacement that returns for every match makes [replace] return. *)
Lemma replace_returns :
  (forall s cs n, exec_at r s = Some (cs, n) ->
                  returns (apply_replacement v (firstn n s) cs)) ->
  forall s, returns (replace r v s).
Proof.
  intros Hv. unfold replace.
  apply (scan_induction r (fun _ ps => returns (rebuild v ps))).
  - intros _. exists []; reflexivity.
  - intros cs n E. destruct (Hv [] cs n E) as [o Ho]. rewrite firstn_nil in Ho.
    cbn [rebuild]. rewrite Ho. eexists; reflexivity.
  - intros c t _ [o Ho]. cbn [rebuild]. rewrite Ho. eexists; reflexivity.
  - intros c t cs E [o Ho]. destruct (Hv (c :: t) cs O E) as [o' Ho'].
    cbn [firstn] in Ho'. cbn [rebuild]. rewrite Ho', Ho. eexists; reflexivity.
  - intros c t cs k E _ [o Ho]. destruct (Hv (c :: t) cs (S k) E) as [o' Ho'].
    cbn [firstn] in Ho'. cbn [rebuild]. rewrite Ho', Ho. eexists; reflexivity.
Qed.
End Replacement.

(** ** Literal patterns *)

Lemma mt_lit (t : str) (cs : caps) (s : str) :
  mt (lit t) cs s
  = if starts_with t s then [(cs, skipn (length t) s)] else [].
Proof.
  revert s; induction t as [|c t IH]; intros s; [reflexivity|].
  cbn [lit mt starts_with]. destruct s as [|x s]; [reflexivity|].
  rewrite (Z.eqb_sym c x). destruct (x =? c); [|reflexivity].
  cbn [flat_map fst snd andb]. rewrite IH, app_nil_r. reflexivity.
Qed.

Lemma starts_with_length (t s : str) :
  starts_with t s = true -> (length t <= length s)%nat.
Proof.
  intros H. apply starts_with_iff in H. destruct H as [b ->].
  rewrite length_app. lia.
Qed.

Lemma exec_at_lit (t s : str) :
  exec_at (lit t) s = if starts_with t s then Some ([], length t) else None.
Proof.
  unfold exec_at. rewrite mt_lit. destruct (starts_with t s) eqn:E; [|reflexivity].
  apply starts_with_length in E. rewrite length_skipn. f_equal. f_equal. lia.
Qed.

(** Replacing a non-empty title by a label that shares no character with
    it leaves no occurrence of the title. *)
Lemma purge_step (t l s out : str) :
  t <> [] -> l <> [] -> (forall c, In c l -> ~ In c t) ->
  replace (lit t) (Str l) s = Ok out -> ~ occurs t out.
Proof.
  intros Ht Hl Hdis.
  assert (H : forall s x out,
            rebuild (Str l) (scan (lit t) 0 s) = Ok out ->
            (forall p q, x ++ s = p ++ t ++ q -> (length x <= length p)%nat) ->
            ~ occurs t (x ++ out)).
  { apply (scan_induction (lit t)
             (fun s ps => forall x out, rebuild (Str l) ps = Ok out ->
                (forall p q, x ++ s = p ++ t ++ q -> (length x <= length p)%nat) ->
                ~ occurs t (x ++ out))).
    - intros _ x o [= <-] Hx [p [q E]]. specialize (Hx p q E).
      apply (f_equal (@length Z)) in E. rewrite !length_app in E.
      destruct t; [congruence | simpl in E; lia].
    - intros cs n E. rewrite exec_at_lit in E.
      destruct t; [congruence | discriminate E].
    - intros c s' E IH x o Ho Hx. cbn [rebuild] in Ho.
      apply bind_ok in Ho. destruct Ho as [o' [Ho' Ho]]. injection Ho as <-.
      replace (x ++ c :: o') with ((x ++ [c]) ++ o') by (rewrite <- app_assoc; reflexivity).
      apply IH; [exact Ho'|]. intros p q Epq. rewrite <- app_assoc in Epq.
      pose proof (Hx p q Epq) as Hle. rewrite length_app. simpl.
      destruct (Nat.eq_dec (length x) (length p)) as [Eq|]; [|lia].
      exfalso. apply app_eq_app in Epq.
      destruct Epq as [u [[-> Eu]|[-> Eu]]]; rewrite length_app in Eq;
        assert (u = []) by (destruct u; [reflexivity | simpl in Eq; lia]); subst u;
        simpl in Eu; rewrite exec_at_lit in E;
        assert (Hs : starts_with t (c :: s') = true)
          by (apply starts_with_iff; exists q; congruence);
        rewrite Hs in E; discriminate E.
    - intros c s' cs E. rewrite exec_at_lit in E.
      destruct (starts_with t (c :: s')); [|discriminate E].
      injection E as _ E. destruct t; [congruence | discriminate E].
    - intros c s' cs k E Hk IH x o Ho Hx. cbn [rebuild apply_replacement bind] in Ho.
      apply bind_ok in Ho. destruct Ho as [o' [Ho' Ho]]. injection Ho as <-.
      intros Hocc. destruct (occurs_split t x l o' Hl Hdis Hocc) as [[p [q ->]]|Ho].
      + specialize (Hx p (q ++ c :: s')). rewrite <- !app_assoc in Hx.
        specialize (Hx eq_refl). rewrite !length_app in Hx.
        destruct t; [congruence | simpl in Hx; lia].
      + apply (IH [] o' Ho'); [|exact Ho]. intros; simpl; lia. }
  intros Hout. apply (H s [] out Hout). intros; simpl; lia.
Qed.

(** ** Building the pattern of a title *)

Lemma exec_at_class (negated : bool) (ranges : list (Z * Z)) (c : Z) (t : str) :
  exec_at (Class negated ranges) (c :: t)
  = if in_class negated ranges c then Some ([], 1%nat) else None.
Proof.
  unfold exec_at. cbn [mt]. destruct (in_class negated ranges c); [|reflexivity].
  f_equal. f_equal. cbn [length]. lia.
Qed.

Lemma escapeRegex_escaped (s : str) : escapeRegex s = Ok (escaped s).
Proof.
  unfold escapeRegex, replace. induction s as [|c t IH]; [reflexivity|].
  unfold escaped. cbn [flat_map]. fold (escaped t).
  destruct (is_syntax c) eqn:E.
  - rewrite (scan_cons_hit _ c t [] 0); [|rewrite exec_at_class; unfold in_class;
      cbn [xorb]; unfold is_syntax in E; rewrite E; reflexivity].
    cbn [firstn skipn rebuild apply_replacement pure_fn bind]. rewrite IH. reflexivity.
  - rewrite scan_cons_none; [|rewrite exec_at_class; unfold in_class;
      cbn [xorb]; unfold is_syntax in E; rewrite E; reflexivity].
    cbn [rebuild]. rewrite IH. reflexivity.
Qed.

(** The pattern built for a title matches the title literally. *)
Lemma newRegExp_escaped (s : str) : newRegExp (escaped s) = Ok (lit s).
Proof.
  induction s as [|c t IH]; [reflexivity|].
  unfold escaped. cbn [flat_map]. fold (escaped t).
  destruct (is_syntax c) eqn:E.
  - cbn [app newRegExp]. rewrite E, IH. reflexivity.
  - cbn [app newRegExp]. destruct (Z.eqb_spec c 92) as [->|_]; [discriminate E|].
    rewrite E, IH. reflexivity.
Qed.

(** ** What the replacements write *)

Lemma harmless_label (m l : str) :
  l <> [] -> forallb vocabulary_char l = true -> harmless m l.
Proof. intros; right; split; assumption. Qed.

Ltac label := apply harmless_label; [discriminate | vm_compute; reflexivity].


Lemma rules_return (r : rule) (m : str) (cs : caps) :
  In r anonymizationRules -> returns (apply_replacement (replacement r) m cs).
Proof.
  intros Hr. unfold anonymizationRules in Hr.
  repeat (destruct Hr as [<-|Hr]); try contradiction; eexists; reflexivity.
Qed.










Lemma mt_two_digits (cs : caps) (s : str) :
  mt (between 2 2 digit) cs s
  = match s with
    | a :: b :: t => if is_digit a && is_digit b then [(cs, t)] else []
    | _ => []
    end.
Proof.
  unfold between, digit.
  destruct s as [|a [|b t]];
    cbn [mt loop Nat.add length Nat.pred option_map Nat.eqb andb flat_map fst snd app];
    rewrite ?in_class_digit;
    repeat (match goal with
            | |- context [is_digit ?c] => destruct (is_digit c)
            end;
            cbn [mt loop Nat.add length Nat.pred option_map Nat.eqb andb flat_map
                 fst snd app];
            rewrite ?in_class_digit);
    reflexivity.
Qed.

(** A match of the year pattern is 20, two digits and 年. *)
Lemma year_shape (s : str) (cs : caps) (n : nat) :
  exec_at year_pattern s = Some (cs, n) ->
  exists d1 d2 rest,
    s = 50 :: 48 :: d1 :: d2 :: 24180 :: rest
    /\ is_digit d1 = true /\ is_digit d2 = true /\ n = 5%nat.
Proof.
  unfold exec_at, year_pattern. js_norm. cbn [seqs mt]. rewrite mt_lit.
  destruct (starts_with [50; 48] s) eqn:E; [|discriminate].
  apply starts_with_iff in E. destruct E as [s1 ->].
  cbn [app length skipn flat_map fst snd]. rewrite mt_two_digits.
  destruct s1 as [|d1 [|d2 s2]]; try discriminate.
  destruct (is_digit d1) eqn:E1; [|discriminate].
  destruct (is_digit d2) eqn:E2; [|discriminate].
  cbn [andb flat_map fst snd]. rewrite mt_lit.
  destruct (starts_with [24180] s2) eqn:E; [|discriminate].
  apply starts_with_iff in E. destruct E as [rest ->].
  cbn [app length skipn]. intros [= <- <-].
  exists d1, d2, rest. repeat split; try assumption.
  destruct (length rest) as [|[|[|[|[|k]]]]]; lia.
Qed.

(** The non-null assertion in the callback of the year replacement never
    fails on a match. *)
Lemma to_relative_returns (currentYear : Z) (s : str) (cs : caps) (n : nat) :
  exec_at year_pattern s = Some (cs, n) ->
  returns (to_relative currentYear (firstn n s) cs).
Proof.
  intros H. apply year_shape in H.
  destruct H as [d1 [d2 [rest [-> [H1 [H2 ->]]]]]].
  cbn [firstn]. unfold to_relative.
  assert (E : exec_at four_digits [50; 48; d1; d2; 24180] = Some ([], 4%nat)).
  { unfold four_digits, between, digit.
    rewrite (hd_exec_at _ _ [] [24180]); [reflexivity|].
    apply (hd_class_run false [(48, 57)] 4 (Some 4%nat) [50; 48; d1; d2] [24180]);
      [| reflexivity | simpl; lia | simpl; lia].
    cbn [forallb]. rewrite !in_class_digit, H1, H2. reflexivity. }
  cbn [search]. rewrite E. eexists; reflexivity.
Qed.


(** ** The labels of the categories *)

Lemma assoc_in {A : Type} (k : str) (l : list (str * A)) (v : A) :
  assoc k l = Some v -> In v (map snd l).
Proof.
  induction l as [|[k' v'] l IH]; [discriminate|]. simpl.
  destruct (str_eqb k k'); [intros [= ->]; left; reflexivity | intros H; right; auto].
Qed.

(** For a plain category the lookup yields one of the eight labels. *)
Lemma plain_label (category : str) :
  plain category = true ->
  exists l, getGenericReplacement category = StringValue l
            /\ l <> [] /\ forallb vocabulary_char l = true.
Proof.
  unfold plain, getGenericReplacement, get_replacement. intros Hp.
  destruct (assoc category replacements) as [l|] eqn:E.
  - apply assoc_in in E. exists l.
    assert (Hl : l <> [] /\ forallb vocabulary_char l = true).
    { unfold replacements in E. cbn [map snd] in E.
      repeat (destruct E as [<-|E]; [split; [discriminate | vm_compute; reflexivity]|]).
      destruct E. }
    destruct Hl as [Hne Hv]. split; [|split; assumption].
    destruct l; [congruence | reflexivity].
  - destruct (assoc category object_prototype); [discriminate|].
    eexists. split; [reflexivity|]. split; [discriminate | vm_compute; reflexivity].
Qed.

(** ** The stages of the pipeline *)


Lemma purge_returns (companyInfo : list companyInfoRecord) :
  Forall (fun info => plain (category info) = true) companyInfo ->
  forall content, returns (purge content companyInfo).
Proof.
  induction 1 as [|info rest Hp _ IH]; intros content; [eexists; reflexivity|].
  cbn [purge]. destruct (eligible info); [|apply IH].
  rewrite escapeRegex_escaped. cbn [bind]. rewrite newRegExp_escaped. cbn [bind].
  destruct (plain_label _ Hp) as [l [-> _]]. cbn [as_replaceValue].
  destruct (replace_returns (lit (title info)) (Str l)
              ltac:(intros; eexists; reflexivity) content) as [c' ->].
  cbn [bind]. apply IH.
Qed.



Lemma apply_rules_returns (rules : list rule) :
  (forall r, In r rules -> In r anonymizationRules) ->
  forall content, returns (apply_rules rules content).
Proof.
  induction rules as [|r rules IH]; intros Hsub content; [eexists; reflexivity|].
  cbn [apply_rules].
  destruct (replace_returns (pattern r) (replacement r)
              ltac:(intros; apply rules_return; apply Hsub; left; reflexivity)
              content) as [c' ->].
  cbn [bind]. apply IH. intros; apply Hsub; right; assumption.
Qed.


(** [obscureNumbers] never throws. *)
Lemma obscureNumbers_returns (content : str) : returns (obscureNumbers content).
Proof.
  unfold obscureNumbers.
  destruct (replace_returns amount_pattern (pure_fn amount_band)
              ltac:(intros; eexists; reflexivity) content) as [c1 ->].
  cbn [bind]. apply replace_returns. intros; eexists; reflexivity.
Qed.


(** [generalizeDates] never throws. *)
Lemma generalizeDates_returns (currentYear : Z) (content : str) :
  returns (generalizeDates currentYear content).
Proof.
  unfold generalizeDates.
  destruct (replace_returns full_date_pattern (Fn to_year_month)
              ltac:(intros s cs n _; cbn [apply_replacement]; unfold to_year_month;
                    destruct (search year_month_pattern (firstn n s)) as [[x c]|];
                    eexists; reflexivity) content) as [c1 ->].
  cbn [bind]. apply replace_returns. intros s cs n E. apply to_relative_returns; exact E.
Qed.


(** ** Purge of confidential titles *)



(** With plain categories the pipeline returns for every text. *)
Lemma anonymize_returns (currentYear : Z) (content : str)
    (companyInfo : list companyInfoRecord) :
  Forall (fun i => plain (category i) = true) companyInfo ->
  returns (anonymize currentYear content companyInfo).
Proof.
  intros Hall. unfold anonymize.
  destruct (purge_returns companyInfo Hall content) as [c1 ->]. cbn [bind].
  destruct (apply_rules_returns anonymizationRules ltac:(auto) c1) as [c2 ->].
  cbn [bind]. destruct (obscureNumbers_returns c2) as [c3 ->]. cbn [bind].
  apply generalizeDates_returns.
Qed.

(** ** Replacement strings are inserted as they are *)

(** No replacement string of a rule contains a dollar sign, so none has a
    substitution pattern. *)
Lemma rules_without_dollar (r : rule) (l : str) :
  In r anonymizationRules -> replacement r = Str l -> ~ In 36 l.
Proof.
  intros Hr E. unfold anonymizationRules in Hr.
  repeat (destruct Hr as [<-|Hr]); try contradiction; cbn [replacement] in E;
    try discriminate E; injection E as <-; vm_compute; intuition discriminate.
Qed.

(** Nor does any string the category lookup can hand to [replace]. *)
Lemma labels_without_dollar (category l : str) :
  as_replaceValue (getGenericReplacement category) = Str l -> ~ In 36 l.
Proof.
  unfold getGenericReplacement, get_replacement.
  destruct (assoc category replacements) as [x|] eqn:E.
  - apply assoc_in in E. unfold replacements in E. cbn [map snd] in E.
    repeat (destruct E as [<-|E];
            [intros [= <-]; vm_compute; intuition discriminate|]).
    destruct E.
  - destruct (assoc category object_prototype) as [v|] eqn:E'.
    + apply assoc_in in E'. unfold object_prototype in E'. cbn [map snd] in E'.
      repeat (destruct E' as [<-|E'];
              [cbn [truthy as_replaceValue]; intros H; try discriminate H;
               injection H as <-; vm_compute; intuition discriminate|]).
      destruct E'.
    + cbn [truthy as_replaceValue]. intros [= <-]. vm_compute. intuition discriminate.
Qed.

(** * Further properties *)

(** ** Texts without a match *)

Lemma test_false_scan (r : regex) (s : str) :
  test r s = false -> scan r 0 s = map Gap s.
Proof.
  unfold test. induction s as [|c t IH]; intros H.
  - rewrite scan_nil. simpl in H.
    destruct (exec_at r []) as [[cs n]|]; [discriminate | reflexivity].
  - simpl in H. destruct (exec_at r (c :: t)) as [[cs n]|] eqn:E; [discriminate|].
    rewrite (scan_cons_none _ _ _ E). simpl. rewrite IH by exact H. reflexivity.
Qed.

Lemma replace_no_match (r : regex) (v : replaceValue) (s : str) :
  test r s = false -> replace r v s = Ok s.
Proof.
  intros H. unfold replace. rewrite (test_false_scan _ _ H). apply rebuild_gaps.
Qed.

Lemma hits_gaps (s : str) : hits (map Gap s) = [].
Proof. induction s; simpl; auto. Qed.

Lemma match_all_nil_iff (r : regex) (s : str) :
  match_all r s = [] <-> test r s = false.
Proof.
  split.
  - unfold match_all, test. induction s as [|c t IH]; intros H.
    + rewrite scan_nil in H. simpl.
      destruct (exec_at r []) as [[cs n]|]; [discriminate H | reflexivity].
    + simpl search. destruct (exec_at r (c :: t)) as [[cs [|k]]|] eqn:E.
      * rewrite (scan_cons_empty _ _ _ _ E) in H. discriminate H.
      * rewrite (scan_cons_hit _ _ _ _ _ E) in H. discriminate H.
      * rewrite (scan_cons_none _ _ _ E) in H. apply IH. exact H.
  - intros H. unfold match_all. rewrite (test_false_scan _ _ H), hits_gaps.
    reflexivity.
Qed.

Lemma test_lit (t s : str) : test (lit t) s = includes s t.
Proof.
  unfold test. induction s as [|c s IH].
  - simpl. rewrite exec_at_lit. destruct (starts_with t []); reflexivity.
  - simpl search. rewrite exec_at_lit. cbn [includes].
    destruct (starts_with t (c :: s)); [reflexivity|]. exact IH.
Qed.

(** Every match the scan reports was found by the matcher at some
    position. *)
Lemma scan_hits_exec (r : regex) (s m : str) (cs : caps) :
  In (Hit m cs) (scan r 0 s) ->
  exists s' n, exec_at r s' = Some (cs, n) /\ m = firstn n s'.
Proof.
  apply (scan_induction r (fun _ ps => In (Hit m cs) ps ->
           exists s' n, exec_at r s' = Some (cs, n) /\ m = firstn n s')).
  - intros _ [].
  - intros cs' n E [H|[]]. injection H as <- <-.
    exists [], n. split; [exact E | rewrite firstn_nil; reflexivity].
  - intros c t _ IH [H|H]; [discriminate H | exact (IH H)].
  - intros c t cs' E IH [H|[H|H]]; [|discriminate H | exact (IH H)].
    injection H as <- <-. exists (c :: t), O. split; [exact E | reflexivity].
  - intros c t cs' k E _ IH [H|H]; [|exact (IH H)].
    injection H as <- <-. exists (c :: t), (S k). split; [exact E | reflexivity].
Qed.

(** ** Records that are not eligible *)

Lemma purge_filter (companyInfo : list companyInfoRecord) (content : str) :
  purge content companyInfo = purge content (filter eligible companyInfo).
Proof.
  revert content; induction companyInfo as [|info rest IH]; intros content;
    [reflexivity|].
  cbn [purge filter]. destruct (eligible info) eqn:E; [|apply IH].
  cbn [purge]. rewrite E.
  destruct (escapeRegex (title info)) as [src|e]; [|reflexivity]. cbn [bind].
  destruct (newRegExp src) as [pat|e]; [|reflexivity]. cbn [bind].
  destruct (replace pat _ content) as [c'|e]; [|reflexivity]. cbn [bind].
  apply IH.
Qed.

(** X1: records that are public or not confidential have no effect: the
    result is the one obtained from the eligible records alone. *)
Theorem ineligible_records_ignored :
  forall (currentYear : Z) (content : str) (companyInfo : list companyInfoRecord),
    anonymize currentYear content companyInfo
    = anonymize currentYear content (filter eligible companyInfo).
Proof.
  intros currentYear content companyInfo. unfold anonymize.
  rewrite (purge_filter companyInfo content). reflexivity.
Qed.

(** ** The pattern of a title *)

(** X2: whatever characters a title contains, [escapeRegex] returns and the
    pattern compiled from its result finds the title exactly where the text
    contains it, and every match is the title itself. *)
Theorem title_pattern_literal :
  forall t : str,
    exists source r,
      escapeRegex t = Ok source /\ newRegExp source = Ok r
      /\ forall s : str,
           test r s = includes s t
           /\ forall m, In m (match_all r s) -> m = t.
Proof.
  intros t. exists (escaped t), (lit t).
  split; [apply escapeRegex_escaped|]. split; [apply newRegExp_escaped|].
  intros s. split; [apply test_lit|].
  intros m Hm. unfold match_all in Hm. apply in_map_iff in Hm.
  destruct Hm as [[m' cs] [<- Hin]]. cbn [fst].
  assert (Hhit : In (Hit m' cs) (scan (lit t) 0 s)).
  { clear -Hin. induction (scan (lit t) 0 s) as [|p ps IH]; [destruct Hin|].
    destruct p as [c|m0 cs0]; simpl in Hin.
    - right; apply IH; exact Hin.
    - destruct Hin as [H|H]; [injection H as -> ->; left; reflexivity|].
      right; apply IH; exact H. }
  apply scan_hits_exec in Hhit. destruct Hhit as [s' [n [E ->]]].
  rewrite exec_at_lit in E. destruct (starts_with t s') eqn:Es; [|discriminate E].
  injection E as _ <-. apply starts_with_iff in Es. destruct Es as [b ->].
  rewrite firstn_app, Nat.sub_diag, firstn_all. simpl. apply app_nil_r.
Qed.

(** ** Dates *)

(** X3: [generalizeDates] returns for every text and every current year:
    each match of the year pattern holds four digits, so the non-null
    assertion in its callback cannot fail. *)
Theorem generalizeDates_never_throws :
  forall (currentYear : Z) (content : str),
    exists out, generalizeDates currentYear content = Ok out.
Proof. intros currentYear content. apply generalizeDates_returns. Qed.

Lemma year_exec (d1 d2 : Z) (rest : str) :
  is_digit d1 = true -> is_digit d2 = true ->
  exec_at year_pattern (50 :: 48 :: d1 :: d2 :: 24180 :: rest)
  = Some ([], 5%nat).
Proof.
  intros H1 H2. unfold exec_at, year_pattern. js_norm. cbn [seqs mt].
  rewrite mt_lit. cbn [starts_with Z.eqb Pos.eqb andb length skipn flat_map fst snd].
  rewrite mt_two_digits, H1, H2. cbn [andb flat_map fst snd]. rewrite mt_lit.
  cbn [starts_with Z.eqb Pos.eqb andb length skipn app].
  f_equal. f_equal.
  change (length (50 :: 48 :: d1 :: d2 :: 24180 :: rest)) with (5 + length rest)%nat.
  lia.
Qed.

Lemma four_digits_search (d1 d2 : Z) :
  is_digit d1 = true -> is_digit d2 = true ->
  search four_digits [50; 48; d1; d2; 24180] = Some ([50; 48; d1; d2], []).
Proof.
  intros H1 H2.
  assert (E : exec_at four_digits [50; 48; d1; d2; 24180] = Some ([], 4%nat)).
  { unfold four_digits, between, digit.
    rewrite (hd_exec_at _ _ [] [24180]); [reflexivity|].
    apply (hd_class_run false [(48, 57)] 4 (Some 4%nat) [50; 48; d1; d2] [24180]);
      [| reflexivity | simpl; lia | simpl; lia].
    cbn [forallb]. rewrite !in_class_digit, H1, H2. reflexivity. }
  cbn [search]. rewrite E. reflexivity.
Qed.

Lemma year_value (d1 d2 : Z) :
  is_digit d1 = true -> is_digit d2 = true ->
  parseInt (@Some str [50; 48; d1; d2]) = Some (year_of d1 d2).
Proof.
  intros H1 H2. unfold parseInt, year_of. cbn [is_digit Z.leb Z.compare Pos.compare Pos.compare_cont andb].
  change (is_digit 50) with true. cbv iota.
  unfold digits_value. change (is_digit 50) with true. change (is_digit 48) with true.
  rewrite H1, H2. cbv iota. f_equal. lia.
Qed.

(** X4: a year token on its own.  The text 20[d1][d2]年 becomes the label
    of the difference between the current year and that year; a year
    later than the current one gives a negative count of years. *)
Theorem bare_year_relative :
  forall (currentYear d1 d2 : Z),
    is_digit d1 = true -> is_digit d2 = true ->
    generalizeDates currentYear (js "20" ++ [d1; d2] ++ js "年")
    = Ok (relative_year (Some (currentYear - year_of d1 d2)))
    /\ (currentYear < year_of d1 d2 ->
        generalizeDates currentYear (js "20" ++ [d1; d2] ++ js "年")
        = Ok (js "-" ++ nat_to_str (Z.to_nat (year_of d1 d2 - currentYear))
              ++ js "年前")).
Proof.
  intros currentYear d1 d2 H1 H2. js_norm. cbn [app].
  assert (E : generalizeDates currentYear [50; 48; d1; d2; 24180]
              = Ok (relative_year (Some (currentYear - year_of d1 d2)))).
  { unfold generalizeDates. rewrite (replace_without 26376); [|reflexivity|].
    - cbn [bind]. unfold replace.
      assert (Hne : [50; 48; d1; d2; 24180] <> ([] : str)) by discriminate.
      rewrite (scan_whole _ _ [] Hne (year_exec d1 d2 [] H1 H2) eq_refl).
      cbn [rebuild apply_replacement]. unfold to_relative.
      rewrite (four_digits_search d1 d2 H1 H2). cbv beta iota zeta.
      rewrite (year_value d1 d2 H1 H2).
      cbn [option_map bind]. rewrite app_nil_r. reflexivity.
    - apply digit_cases in H1. apply digit_cases in H2. simpl. intuition lia. }
  split; [exact E|]. intros Hlt. rewrite E. f_equal.
  unfold relative_year.
  destruct (Z.eqb_spec (currentYear - year_of d1 d2) 0); [lia|].
  destruct (Z.eqb_spec (currentYear - year_of d1 d2) 1); [lia|].
  destruct (Z.eqb_spec (currentYear - year_of d1 d2) 2); [lia|].
  destruct (Z.leb_spec (currentYear - year_of d1 d2) 5); [|lia].
  unfold int_to_str. destruct (Z.ltb_spec (currentYear - year_of d1 d2) 0); [|lia].
  js_norm. cbn [app]. do 3 f_equal. lia.
Qed.

Lemma bare_year_relative_witness :
  generalizeDates 2025 (js "20" ++ [51; 48] ++ js "年")
  = Ok (relative_year (Some (2025 - year_of 51 48)))
  /\ (2025 < year_of 51 48 ->
      generalizeDates 2025 (js "20" ++ [51; 48] ++ js "年")
      = Ok (js "-" ++ nat_to_str (Z.to_nat (year_of 51 48 - 2025)) ++ js "年前")).
Proof. apply (bare_year_relative 2025 51 48); reflexivity. Defined.

Lemma firstn_length_app {A : Type} (a b : list A) : firstn (length a) (a ++ b) = a.
Proof. rewrite firstn_app, Nat.sub_diag, firstn_all. simpl. apply app_nil_r. Qed.

Lemma hd_lit (t : str) (cs : caps) (s : str) :
  starts_with t s = true ->
  hd_error (mt (lit t) cs s) = Some (cs, skipn (length t) s).
Proof. intros H. rewrite mt_lit, H. reflexivity. Qed.

Lemma hd_two_digits (cs : caps) (d1 d2 : Z) (t : str) :
  is_digit d1 = true -> is_digit d2 = true ->
  hd_error (mt (between 2 2 digit) cs (d1 :: d2 :: t)) = Some (cs, t).
Proof. intros H1 H2. rewrite mt_two_digits, H1, H2. reflexivity. Qed.

Lemma hd_one_or_two_digits (cs : caps) (ds : str) (x : Z) (t : str) :
  forallb is_digit ds = true -> (length ds = 1 \/ length ds = 2)%nat ->
  is_digit x = false ->
  hd_error (mt (between 1 2 digit) cs (ds ++ x :: t)) = Some (cs, x :: t).
Proof.
  intros Hds Hlen Hx. unfold between, digit.
  apply hd_class_run; [rewrite forallb_digit; exact Hds | | lia | lia].
  rewrite in_class_digit. exact Hx.
Qed.

Section FullDate.
Variables (d1 d2 : Z) (ms ds : str).
Hypothesis Hd1 : is_digit d1 = true.
Hypothesis Hd2 : is_digit d2 = true.
Hypothesis Hms : forallb is_digit ms = true.
Hypothesis Hds : forallb is_digit ds = true.
Hypothesis Lms : (length ms = 1 \/ length ms = 2)%nat.
Hypothesis Lds : (length ds = 1 \/ length ds = 2)%nat.

Lemma full_date_exec :
  exec_at full_date_pattern
    (50 :: 48 :: d1 :: d2 :: 24180 :: ms ++ 26376 :: ds ++ [26085])
  = Some ([], length (50 :: 48 :: d1 :: d2 :: 24180 :: ms ++ 26376 :: ds ++ [26085])).
Proof.
  rewrite (hd_exec_at _ _ [] []); [f_equal; f_equal; cbn [length]; lia|].
  unfold full_date_pattern. js_norm. cbn [seqs].
  eapply hd_seq; [apply hd_lit; reflexivity|]. cbn [fst snd length skipn].
  eapply hd_seq; [apply hd_two_digits; assumption|]. cbn [fst snd].
  eapply hd_seq; [apply hd_lit; reflexivity|]. cbn [fst snd length skipn].
  eapply hd_seq; [apply hd_one_or_two_digits; [assumption | assumption | reflexivity]|].
  cbn [fst snd].
  eapply hd_seq; [apply hd_lit; reflexivity|]. cbn [fst snd length skipn].
  eapply hd_seq; [apply hd_one_or_two_digits; [assumption | assumption | reflexivity]|].
  cbn [fst snd]. reflexivity.
Qed.

Lemma year_month_search :
  search year_month_pattern
    (50 :: 48 :: d1 :: d2 :: 24180 :: ms ++ 26376 :: ds ++ [26085])
  = Some (50 :: 48 :: d1 :: d2 :: 24180 :: ms ++ [26376], []).
Proof.
  assert (E : exec_at year_month_pattern
                (50 :: 48 :: d1 :: d2 :: 24180 :: ms ++ 26376 :: ds ++ [26085])
              = Some ([], length (50 :: 48 :: d1 :: d2 :: 24180 :: ms ++ [26376]))).
  { rewrite (hd_exec_at _ _ [] (ds ++ [26085])).
    - f_equal. f_equal. cbn [length]. rewrite !length_app. cbn [length].
      rewrite length_app. cbn [length]. lia.
    - unfold year_month_pattern. js_norm. cbn [seqs].
      eapply hd_seq; [apply hd_lit; reflexivity|]. cbn [fst snd length skipn].
      eapply hd_seq; [apply hd_two_digits; assumption|]. cbn [fst snd].
      eapply hd_seq; [apply hd_lit; reflexivity|]. cbn [fst snd length skipn].
      eapply hd_seq; [apply hd_one_or_two_digits; [assumption | assumption | reflexivity]|].
      cbn [fst snd]. reflexivity. }
  cbn [search]. rewrite E. f_equal. f_equal.
  assert (Es : 50 :: 48 :: d1 :: d2 :: 24180 :: ms ++ 26376 :: ds ++ [26085]
               = (50 :: 48 :: d1 :: d2 :: 24180 :: ms ++ [26376]) ++ ds ++ [26085])
    by (cbn [app]; rewrite <- app_assoc; reflexivity).
  rewrite Es. apply firstn_length_app.
Qed.

End FullDate.

(** X5: a full date on its own.  For a year 20[d1][d2], a month and a day
    of one or two digits each, [generalizeDates] drops the day and writes
    the year as its relative label, keeping the month. *)
Theorem full_date_generalized :
  forall (currentYear d1 d2 : Z) (ms ds : str),
    is_digit d1 = true -> is_digit d2 = true ->
    forallb is_digit ms = true -> forallb is_digit ds = true ->
    (length ms = 1 \/ length ms = 2)%nat ->
    (length ds = 1 \/ length ds = 2)%nat ->
    generalizeDates currentYear
      (js "20" ++ [d1; d2] ++ js "年" ++ ms ++ js "月" ++ ds ++ js "日")
    = Ok (relative_year (Some (currentYear - year_of d1 d2)) ++ ms ++ js "月").
Proof.
  intros currentYear d1 d2 ms ds H1 H2 Hms Hds Lms Lds. js_norm. cbn [app].
  unfold generalizeDates, replace at 1.
  assert (Hne : 50 :: 48 :: d1 :: d2 :: 24180 :: ms ++ 26376 :: ds ++ [26085]
                <> ([] : str)) by discriminate.
  rewrite (scan_whole _ _ [] Hne (full_date_exec d1 d2 ms ds H1 H2 Hms Hds Lms Lds)
             eq_refl).
  cbn [rebuild apply_replacement]. unfold to_year_month.
  rewrite (year_month_search d1 d2 ms ds H1 H2 Hms Lms Lds). cbn [bind].
  rewrite app_nil_r. unfold replace.
  rewrite (scan_cons_hit _ 50 (48 :: d1 :: d2 :: 24180 :: ms ++ [26376]) [] 4
             (year_exec d1 d2 (ms ++ [26376]) H1 H2)).
  cbn [firstn skipn]. rewrite (scan_without 24180); [|reflexivity|].
  - cbn [rebuild apply_replacement]. unfold to_relative.
    rewrite (four_digits_search d1 d2 H1 H2). cbv beta iota zeta.
    rewrite (year_value d1 d2 H1 H2). cbn [option_map bind].
    rewrite rebuild_gaps. reflexivity.
  - apply not_in_app; [apply digit_not_in; [exact Hms | reflexivity]|].
    simpl. intuition discriminate.
Qed.

Lemma full_date_generalized_witness :
  generalizeDates 2025
    (js "20" ++ [50; 52] ++ js "年" ++ js "12" ++ js "月" ++ js "3" ++ js "日")
  = Ok (relative_year (Some (2025 - year_of 50 52)) ++ js "12" ++ js "月").
Proof.
  apply (full_date_generalized 2025 50 52 (js "12") (js "3"));
    first [reflexivity | left; reflexivity | right; reflexivity].
Defined.

(** ** Texts the pipeline leaves alone *)

Lemma purge_absent (companyInfo : list companyInfoRecord) (content : str) :
  (forall info, In info companyInfo -> eligible info = true ->
                includes content (title info) = false) ->
  purge content companyInfo = Ok content.
Proof.
  induction companyInfo as [|info rest IH]; intros H; [reflexivity|].
  cbn [purge]. destruct (eligible info) eqn:E.
  - rewrite escapeRegex_escaped. cbn [bind]. rewrite newRegExp_escaped. cbn [bind].
    rewrite replace_no_match
      by (rewrite test_lit; apply H; [left; reflexivity | exact E]).
    cbn [bind]. apply IH. intros i Hi. apply H. right; exact Hi.
  - apply IH. intros i Hi. apply H. right; exact Hi.
Qed.

Lemma apply_rules_no_match (rules : list rule) (content : str) :
  (forall r, In r rules -> test (pattern r) content = false) ->
  apply_rules rules content = Ok content.
Proof.
  induction rules as [|r rules IH]; intros H; [reflexivity|].
  cbn [apply_rules]. rewrite replace_no_match by (apply H; left; reflexivity).
  cbn [bind]. apply IH. intros r' Hr'. apply H. right; exact Hr'.
Qed.

(** X6: a text in which no pattern of the pipeline has a match and no
    title of an eligible record occurs is returned unchanged, whatever the
    categories of the records are. *)
Theorem anonymize_unchanged :
  forall (currentYear : Z) (content : str) (companyInfo : list companyInfoRecord),
    (forall info, In info companyInfo -> eligible info = true ->
                  includes content (title info) = false) ->
    forallb (fun r => negb (test r content)) pipeline_patterns = true ->
    anonymize currentYear content companyInfo = Ok content.
Proof.
  intros currentYear content companyInfo Htitles Hpat.
  unfold pipeline_patterns in Hpat. rewrite forallb_app in Hpat.
  apply andb_true_iff in Hpat. destruct Hpat as [Hrules Hrest].
  cbn [forallb] in Hrest. rewrite !andb_true_iff, !negb_true_iff in Hrest.
  destruct Hrest as (Ha & Hp & Hf & Hy & _).
  unfold anonymize. rewrite (purge_absent _ _ Htitles). cbn [bind].
  rewrite apply_rules_no_match.
  - cbn [bind]. unfold obscureNumbers.
    rewrite (replace_no_match _ _ _ Ha). cbn [bind].
    rewrite (replace_no_match _ _ _ Hp). cbn [bind].
    unfold generalizeDates. rewrite (replace_no_match _ _ _ Hf). cbn [bind].
    apply (replace_no_match _ _ _ Hy).
  - intros r Hr. rewrite forallb_forall in Hrules.
    specialize (Hrules (pattern r) (in_map pattern _ _ Hr)).
    apply negb_true_iff in Hrules. exact Hrules.
Qed.

Lemma anonymize_unchanged_witness :
  anonymize 2025 (js "本日は晴天です。Release notes follow.")
            [confidential "来期計画" "valueOf"]
  = Ok (js "本日は晴天です。Release notes follow.").
Proof.
  apply (anonymize_unchanged 2025 (js "本日は晴天です。Release notes follow.")
           [confidential "来期計画" "valueOf"]).
  - intros info [<-|[]] _. vm_compute. reflexivity.
  - vm_compute. reflexivity.
Defined.

(** ** Categories that name a member of Object.prototype *)

Lemma rebuild_identity (r : regex) (f : str -> caps -> result str) (s : str) :
  (forall m cs, f m cs = Ok m) -> rebuild (Fn f) (scan r 0 s) = Ok s.
Proof.
  intros Hf.
  apply (scan_induction r (fun s ps => rebuild (Fn f) ps = Ok s)).
  - intros _. reflexivity.
  - intros cs n _. cbn [rebuild apply_replacement]. rewrite Hf. reflexivity.
  - intros c t _ IH. cbn [rebuild]. rewrite IH. reflexivity.
  - intros c t cs _ IH. cbn [rebuild apply_replacement]. rewrite Hf, IH. reflexivity.
  - intros c t cs k _ _ IH. cbn [rebuild apply_replacement]. rewrite Hf, IH.
    cbn [bind app]. rewrite firstn_skipn. reflexivity.
Qed.

Lemma rebuild_throws (f : str -> caps -> result str) (e : error) (ps : list piece) :
  (forall m cs, f m cs = Throw e) -> hits ps <> [] -> rebuild (Fn f) ps = Throw e.
Proof.
  intros Hf. induction ps as [|p ps IH]; intros H; [exfalso; apply H; reflexivity|].
  destruct p as [c|m cs]; cbn [rebuild apply_replacement].
  - rewrite IH by exact H. reflexivity.
  - rewrite Hf. reflexivity.
Qed.

Lemma purge_single (t c content : str) :
  purge content [record_of t c]
  = replace (lit t) (as_replaceValue (getGenericReplacement c)) content.
Proof.
  cbn [purge record_of eligible isConfidential isPublic title category andb negb].
  rewrite escapeRegex_escaped. cbn [bind]. rewrite newRegExp_escaped. cbn [bind].
  destruct (replace (lit t) _ content); reflexivity.
Qed.

(** X7: a confidential record whose category is "constructor" purges
    nothing: [replace] calls [Object] on each match of the title and gets
    the match back, so the result is the one obtained without the record. *)
Theorem constructor_category_purges_nothing :
  forall (currentYear : Z) (content t : str),
    anonymize currentYear content [record_of t (js "constructor")]
    = anonymize currentYear content [].
Proof.
  intros currentYear content t. unfold anonymize. rewrite purge_single.
  change (getGenericReplacement (js "constructor")) with (Builtin ObjectConstructor).
  cbn [as_replaceValue]. unfold replace at 1.
  rewrite rebuild_identity by reflexivity. reflexivity.
Qed.

(** X8: a confidential record whose category names a throwing method of
    [Object.prototype] makes [anonymize] throw a TypeError exactly when
    its title occurs in the content; when the title does not occur the
    record has no effect. *)
Theorem throwing_category :
  forall (currentYear : Z) (content t c : str),
    In c throwing_categories ->
    (includes content t = true ->
     anonymize currentYear content [record_of t c] = Throw TypeError)
    /\ (includes content t = false ->
        anonymize currentYear content [record_of t c]
        = anonymize currentYear content []).
Proof.
  intros currentYear content t c Hc.
  assert (Hv : exists b, getGenericReplacement c = Builtin b
                         /\ forall m, call_builtin b m = Throw TypeError).
  { unfold throwing_categories in Hc.
    repeat (destruct Hc as [<-|Hc];
            [eexists; split; [vm_compute; reflexivity | reflexivity]|]).
    destruct Hc. }
  destruct Hv as [b [Eb Hb]]. unfold anonymize. rewrite purge_single, Eb.
  cbn [as_replaceValue]. split; intros H.
  - unfold replace. rewrite (rebuild_throws _ TypeError); [reflexivity | auto |].
    intros Hh. rewrite <- test_lit in H.
    assert (E : match_all (lit t) content = []) by (unfold match_all; rewrite Hh; reflexivity).
    apply match_all_nil_iff in E. congruence.
  - rewrite replace_no_match by (rewrite test_lit; exact H). reflexivity.
Qed.

Lemma throwing_category_witness :
  (includes (js "来期計画の概要") (js "来期計画") = true ->
   anonymize 2025 (js "来期計画の概要")
             [record_of (js "来期計画") (js "hasOwnProperty")]
   = Throw TypeError)
  /\ (includes (js "来期計画の概要") (js "来期計画") = false ->
      anonymize 2025 (js "来期計画の概要")
                [record_of (js "来期計画") (js "hasOwnProperty")]
      = anonymize 2025 (js "来期計画の概要") []).
Proof.
  apply (throwing_category 2025 (js "来期計画の概要") (js "来期計画")
           (js "hasOwnProperty")).
  right; left; reflexivity.
Defined.

(** ** The report and the rules *)

Lemma tally_grows (rules : list rule) (original : str) (acc : nat * list str) :
  (fst acc <= fst (tally rules original acc))%nat.
Proof.
  revert acc; induction rules as [|r rules IH]; intros acc; [apply Nat.le_refl|].
  cbn [tally]. destruct (match_all (pattern r) original); [apply IH|].
  eapply Nat.le_trans; [|apply IH]. cbn [fst]. lia.
Qed.

Lemma tally_zero (rules : list rule) (original : str) (acc : nat * list str) :
  fst (tally rules original acc) = O ->
  forall r, In r rules -> match_all (pattern r) original = [].
Proof.
  revert acc; induction rules as [|r rules IH]; intros acc H r' Hr'; [destruct Hr'|].
  cbn [tally] in H. destruct (match_all (pattern r) original) as [|m ms] eqn:E.
  - destruct Hr' as [<-|Hr']; [exact E | eapply IH; eassumption].
  - pose proof (tally_grows rules original
                  ((fst acc + length (m :: ms))%nat,
                   snd acc ++ [entry (key r) (length (m :: ms))])) as Hg.
    cbn [fst length] in Hg, H. lia.
Qed.

(** X9: when the report counts no match, the standing rules leave the
    original text as it is. *)
Theorem unreported_text_unchanged :
  forall original anonymized : str,
    changedCount (generateAnonymizationReport original anonymized) = O ->
    apply_rules anonymizationRules original = Ok original.
Proof.
  intros original anonymized H. unfold generateAnonymizationReport in H.
  cbn [changedCount] in H. apply apply_rules_no_match. intros r Hr.
  apply match_all_nil_iff. exact (tally_zero _ _ _ H r Hr).
Qed.

Lemma unreported_text_unchanged_witness :
  apply_rules anonymizationRules (js "本日は晴天です。") = Ok (js "本日は晴天です。").
Proof.
  apply (unreported_text_unchanged (js "本日は晴天です。") []). vm_compute. reflexivity.
Defined.

(** ** Amounts *)

(** X10: an amount of four or more digits before 万円 becomes 数億円 from
    10000 on, 数千万円 from 1000 on, and is left as written below 1000
    (which only zero-padded amounts reach). *)
Theorem amount_banding :
  forall ds : str,
    forallb is_digit ds = true -> (4 <= length ds)%nat ->
    obscureNumbers (ds ++ js "万円")
    = Ok (if 10000 <=? digits_value 0 ds then js "数億円"
          else if 1000 <=? digits_value 0 ds then js "数千万円"
          else ds ++ js "万円").
Proof. intros ds Hds Hlen. apply obscure_amount; assumption. Qed.

Lemma amount_banding_witness :
  obscureNumbers (js "25000" ++ js "万円")
  = Ok (if 10000 <=? digits_value 0 (js "25000") then js "数億円"
        else if 1000 <=? digits_value 0 (js "25000") then js "数千万円"
        else js "25000" ++ js "万円").
Proof.
  apply (amount_banding (js "25000")); [reflexivity | vm_compute; lia].
Defined.

(** ** Risk level *)

Lemma keyword_fold_nonneg (content : str) (l : list str) (acc : Z) :
  0 <= acc ->
  0 <= fold_left (fun score keyword =>
                    if includes content keyword then score + 10 else score) l acc.
Proof.
  revert acc; induction l as [|k l IH]; intros acc H; [exact H|].
  cbn [fold_left]. apply IH. destruct (includes content k); lia.
Qed.

(** X11: a text with a monetary expression (four or more digits before
    万円, or digits before 億円) is never rated low. *)
Theorem monetary_text_not_low :
  forall content : str,
    test money_pattern content = true ->
    determineAnonymizationLevel content <> low.
Proof.
  intros content H. unfold determineAnonymizationLevel.
  assert (Hs : 20 <= risk_score content).
  { unfold risk_score. rewrite H.
    pose proof (keyword_fold_nonneg content highRiskKeywords 0 ltac:(lia)) as Hk.
    fold (keyword_score content) in Hk.
    destruct (test any_percent_pattern content);
      destruct (test full_date_pattern content);
      destruct (match_all quoted_pattern content); cbn [length]; lia. }
  destruct (Z.leb_spec 50 (risk_score content)); [discriminate|].
  destruct (Z.leb_spec 20 (risk_score content)); [discriminate | lia].
Qed.

Lemma monetary_text_not_low_witness :
  determineAnonymizationLevel (js "予算は3億円です") <> low.
Proof.
  apply (monetary_text_not_low (js "予算は3億円です")). vm_compute. reflexivity.
Defined.

(** ** Internal links *)

Lemma getSubstitution_plain (matched before after template : str) :
  ~ In 36 template ->
  getSubstitution matched before after template = template.
Proof.
  induction template as [|c t IH]; intros H; [reflexivity|].
  cbn [getSubstitution]. destruct (Z.eqb_spec c 36) as [->|_].
  - exfalso; apply H; left; reflexivity.
  - rewrite IH; [reflexivity|]. intros Hin; apply H; right; exact Hin.
Qed.

Lemma split_first_none (w s : str) :
  split_first w s = None <-> includes s w = false.
Proof.
  induction s as [|c t IH]; cbn [split_first includes].
  - destruct (starts_with w []); split; intros H; try discriminate; reflexivity.
  - destruct (starts_with w (c :: t)); [split; discriminate|]. cbn [orb].
    rewrite <- IH. destruct (split_first w t) as [[b a]|]; split; intros H;
      try discriminate; reflexivity.
Qed.

(** The split is at the first occurrence. *)
Lemma split_first_some (w s before after : str) :
  split_first w s = Some (before, after) ->
  s = before ++ w ++ after
  /\ forall p q, s = p ++ w ++ q -> (length before <= length p)%nat.
Proof.
  revert before; induction s as [|c t IH]; intros before H; cbn [split_first] in H.
  - destruct (starts_with w []) eqn:E; [|discriminate]. injection H as <- <-.
    apply starts_with_iff in E. destruct E as [b E]. split; [|intros; simpl; lia].
    destruct w; [reflexivity | discriminate].
  - destruct (starts_with w (c :: t)) eqn:E.
    + injection H as <- <-. apply starts_with_iff in E. destruct E as [b E].
      split; [|intros; simpl; lia]. rewrite E.
      rewrite skipn_app, Nat.sub_diag, skipn_all. reflexivity.
    + destruct (split_first w t) as [[b a]|] eqn:Et; [|discriminate].
      injection H as <- <-. destruct (IH b eq_refl) as [Es Hmin].
      split; [rewrite Es at 1; reflexivity|].
      intros p q Epq. destruct p as [|x p].
      * exfalso. assert (starts_with w (c :: t) = true)
          by (apply starts_with_iff; exists q; exact Epq). congruence.
      * simpl in Epq. injection Epq as _ Epq. specialize (Hmin p q Epq).
        simpl. lia.
Qed.

(** X12: links for anchors the text does not contain.  If none of the
    anchors occurs in the content, [addInternalLinks] returns the content
    unchanged. *)
Theorem links_without_anchor :
  forall (content : str) (linkSuggestions : list Suggestion.t),
    (forall sg, In sg linkSuggestions -> includes content (Suggestion.anchorText sg) = false) ->
    apply_links content linkSuggestions = content.
Proof.
  intros content linkSuggestions. unfold apply_links.
  induction linkSuggestions as [|sg rest IH]; intros H; [reflexivity|].
  cbn [fold_left]. unfold replace_first at 2.
  replace (split_first (Suggestion.anchorText sg) content) with (@None (str * str)).
  - apply IH. intros sg' Hsg'. apply H. right; exact Hsg'.
  - symmetry. apply split_first_none. apply H. left; reflexivity.
Qed.

Lemma links_without_anchor_witness :
  apply_links (js "本文です") [{| Suggestion.anchorText := js "関連記事"; Suggestion.url := js "/a" |}]
  = js "本文です".
Proof.
  apply (links_without_anchor (js "本文です")
           [{| Suggestion.anchorText := js "関連記事"; Suggestion.url := js "/a" |}]).
  intros sg [<-|[]]. reflexivity.
Defined.

(** X13: one link.  When neither the anchor nor the URL holds a dollar
    sign and the anchor occurs in the content, exactly its first
    occurrence is wrapped as [anchor](url); the text before and after it
    is kept and the content grows by the length of the URL plus four. *)
Theorem link_first_occurrence :
  forall (content : str) (sg : Suggestion.t),
    ~ In 36 (Suggestion.anchorText sg) -> ~ In 36 (Suggestion.url sg) ->
    includes content (Suggestion.anchorText sg) = true ->
    exists before after,
      content = before ++ Suggestion.anchorText sg ++ after
      /\ (forall p q, content = p ++ Suggestion.anchorText sg ++ q ->
                      (length before <= length p)%nat)
      /\ apply_links content [sg]
         = before ++ js "[" ++ Suggestion.anchorText sg ++ js "](" ++ Suggestion.url sg ++ js ")" ++ after
      /\ length (apply_links content [sg])
         = (length content + length (Suggestion.url sg) + 4)%nat.
Proof.
  intros content sg Ha Hu Hin. unfold apply_links. cbn [fold_left].
  unfold replace_first.
  destruct (split_first (Suggestion.anchorText sg) content) as [[before after]|] eqn:E.
  - destruct (split_first_some _ _ _ _ E) as [Es Hmin].
    exists before, after. split; [exact Es|]. split; [exact Hmin|].
    rewrite getSubstitution_plain.
    + unfold link. js_norm. split.
      * rewrite <- !app_assoc. reflexivity.
      * rewrite Es. rewrite !length_app. cbn [length]. lia.
    + unfold link. js_norm. intros H.
      repeat (apply in_app_or in H; destruct H as [H|H]);
        try contradiction; simpl in H; intuition discriminate.
  - apply split_first_none in E. congruence.
Qed.

Lemma link_first_occurrence_witness :
  exists before after,
    js "SEOの基本とSEOの応用" = before ++ js "SEO" ++ after
    /\ (forall p q, js "SEOの基本とSEOの応用" = p ++ js "SEO" ++ q ->
                    (length before <= length p)%nat)
    /\ apply_links (js "SEOの基本とSEOの応用")
                   [{| Suggestion.anchorText := js "SEO"; Suggestion.url := js "/seo" |}]
       = before ++ js "[" ++ js "SEO" ++ js "](" ++ js "/seo" ++ js ")" ++ after
    /\ length (apply_links (js "SEOの基本とSEOの応用")
                           [{| Suggestion.anchorText := js "SEO"; Suggestion.url := js "/seo" |}])
       = (length (js "SEOの基本とSEOの応用") + length (js "/seo") + 4)%nat.
Proof.
  apply (link_first_occurrence (js "SEOの基本とSEOの応用")
           {| Suggestion.anchorText := js "SEO"; Suggestion.url := js "/seo" |}).
  - vm_compute. intuition discriminate.
  - vm_compute. intuition discriminate.
  - reflexivity.
Defined.

Lemma getSubstitution_app (matched before after a b : str) :
  ~ In 36 a ->
  getSubstitution matched before after (a ++ b)
  = a ++ getSubstitution matched before after b.
Proof.
  induction a as [|c a IH]; intros H; [reflexivity|].
  cbn [app getSubstitution]. destruct (Z.eqb_spec c 36) as [->|_].
  - exfalso; apply H; left; reflexivity.
  - rewrite IH; [reflexivity|]. intros Hin; apply H; right; exact Hin.
Qed.

(** X14: dollar signs in a URL are not written as they are.  With an
    anchor and URL parts free of dollar signs, a URL u1$&u2 is written
    with the anchor in place of $&, and a URL u1$$u2 with a single dollar
    sign. *)
Theorem link_url_substitution :
  forall (content anchor u1 u2 : str),
    ~ In 36 anchor -> ~ In 36 u1 -> ~ In 36 u2 ->
    includes content anchor = true ->
    exists before after,
      content = before ++ anchor ++ after
      /\ apply_links content [{| Suggestion.anchorText := anchor; Suggestion.url := u1 ++ js "$&" ++ u2 |}]
         = before ++ js "[" ++ anchor ++ js "](" ++ u1 ++ anchor ++ u2 ++ js ")" ++ after
      /\ apply_links content [{| Suggestion.anchorText := anchor; Suggestion.url := u1 ++ js "$$" ++ u2 |}]
         = before ++ js "[" ++ anchor ++ js "](" ++ u1 ++ js "$" ++ u2 ++ js ")" ++ after.
Proof.
  intros content anchor u1 u2 Ha H1 H2 Hin. unfold apply_links. cbn [fold_left].
  unfold replace_first. cbn [Suggestion.anchorText].
  destruct (split_first anchor content) as [[before after]|] eqn:E;
    [|apply split_first_none in E; congruence].
  destruct (split_first_some _ _ _ _ E) as [Es _].
  exists before, after. split; [exact Es|].
  assert (Hclose : forall m b a, getSubstitution m b a (u2 ++ [41]) = u2 ++ [41]).
  { intros. apply getSubstitution_plain. intros H. apply in_app_or in H.
    destruct H as [H|H]; [contradiction | simpl in H; intuition discriminate]. }
  unfold link. cbn [Suggestion.anchorText Suggestion.url]. js_norm.
  split.
  - change ([91] ++ anchor ++ [93; 40] ++ (u1 ++ [36; 38] ++ u2) ++ [41])
      with (91 :: anchor ++ [93; 40] ++ (u1 ++ [36; 38] ++ u2) ++ [41]).
    cbn [getSubstitution Z.eqb Pos.eqb].
    rewrite getSubstitution_app by exact Ha.
    cbn [app getSubstitution Z.eqb Pos.eqb].
    rewrite <- !app_assoc. rewrite getSubstitution_app by exact H1.
    cbn [app getSubstitution Z.eqb Pos.eqb]. rewrite Hclose.
    rewrite <- !app_assoc. reflexivity.
  - change ([91] ++ anchor ++ [93; 40] ++ (u1 ++ [36; 36] ++ u2) ++ [41])
      with (91 :: anchor ++ [93; 40] ++ (u1 ++ [36; 36] ++ u2) ++ [41]).
    cbn [getSubstitution Z.eqb Pos.eqb].
    rewrite getSubstitution_app by exact Ha.
    cbn [app getSubstitution Z.eqb Pos.eqb].
    rewrite <- !app_assoc. rewrite getSubstitution_app by exact H1.
    cbn [app getSubstitution Z.eqb Pos.eqb]. rewrite Hclose.
    rewrite <- !app_assoc. cbn [app]. rewrite <- !app_assoc. reflexivity.
Qed.

Lemma link_url_substitution_witness :
  exists before after,
    js "料金表はこちら" = before ++ js "料金表" ++ after
    /\ apply_links (js "料金表はこちら")
         [{| Suggestion.anchorText := js "料金表";
             Suggestion.url := js "/p?q=" ++ js "$&" ++ js "#top" |}]
       = before ++ js "[" ++ js "料金表" ++ js "](" ++ js "/p?q=" ++ js "料金表"
         ++ js "#top" ++ js ")" ++ after
    /\ apply_links (js "料金表はこちら")
         [{| Suggestion.anchorText := js "料金表";
             Suggestion.url := js "/p?q=" ++ js "$$" ++ js "#top" |}]
       = before ++ js "[" ++ js "料金表" ++ js "](" ++ js "/p?q=" ++ js "$"
         ++ js "#top" ++ js ")" ++ after.
Proof.
  apply (link_url_substitution (js "料金表はこちら") (js "料金表") (js "/p?q=") (js "#top"));
    vm_compute; intuition discriminate.
Defined.

Lemma split_first_unique (w s before after : str) :
  s = before ++ w ++ after ->
  (forall p q, s = p ++ w ++ q -> (length before <= length p)%nat) ->
  split_first w s = Some (before, after).
Proof.
  intros Es Hmin. destruct (split_first w s) as [[b a]|] eqn:E.
  - destruct (split_first_some _ _ _ _ E) as [Es' Hmin'].
    pose proof (Hmin b a Es') as H1. pose proof (Hmin' before after Es) as H2.
    assert (Hlen : length b = length before) by lia.
    rewrite Es in Es'. apply app_eq_app in Es'.
    destruct Es' as [l [[-> El]|[-> El]]]; rewrite length_app in Hlen;
      assert (l = []) by (destruct l; [reflexivity | simpl in Hlen; lia]); subst l;
      rewrite app_nil_r; simpl in El; apply app_inv_head in El; congruence.
  - apply split_first_none in E. apply includes_false_iff in E.
    exfalso. apply E. exists before, after. exact Es.
Qed.

(** X15: a suggestion listed twice.  The loop works on the text it has
    already changed, so for a non-empty anchor without a dollar sign or an
    opening bracket the second pass finds the anchor inside the link the
    first pass wrote and wraps it again. *)
Theorem repeated_suggestion_nests :
  forall (content : str) (sg : Suggestion.t),
    Suggestion.anchorText sg <> [] ->
    ~ In 36 (Suggestion.anchorText sg) -> ~ In 91 (Suggestion.anchorText sg) ->
    ~ In 36 (Suggestion.url sg) ->
    includes content (Suggestion.anchorText sg) = true ->
    exists before after,
      content = before ++ Suggestion.anchorText sg ++ after
      /\ apply_links content [sg; sg]
         = before ++ js "[[" ++ Suggestion.anchorText sg ++ js "]("
           ++ Suggestion.url sg ++ js ")](" ++ Suggestion.url sg ++ js ")" ++ after.
Proof.
  intros content sg Hne Ha Hb Hu Hin.
  destruct sg as [anchor u]. cbn [Suggestion.anchorText Suggestion.url] in *.
  assert (Hlink : forall m b a,
            getSubstitution m b a (link {| Suggestion.anchorText := anchor;
                                           Suggestion.url := u |})
            = 91 :: anchor ++ 93 :: 40 :: u ++ [41]).
  { intros. rewrite getSubstitution_plain.
    - unfold link. cbn [Suggestion.anchorText Suggestion.url]. js_norm.
      cbn [app]. rewrite <- ?app_assoc. reflexivity.
    - unfold link. cbn [Suggestion.anchorText Suggestion.url]. js_norm. intros H.
      repeat (apply in_app_or in H; destruct H as [H|H]);
        try contradiction; simpl in H; intuition discriminate. }
  unfold apply_links. cbn [fold_left Suggestion.anchorText].
  unfold replace_first at 2.
  destruct (split_first anchor content) as [[before after]|] eqn:E;
    [|apply split_first_none in E; congruence].
  destruct (split_first_some _ _ _ _ E) as [Es Hmin].
  exists before, after. split; [exact Es|].
  rewrite Hlink. unfold replace_first.
  rewrite (split_first_unique anchor _ (before ++ [91])
             (93 :: 40 :: u ++ [41] ++ after)).
  - rewrite Hlink. js_norm.
    repeat (rewrite <- ?app_assoc; cbn [app]). reflexivity.
  - repeat (rewrite <- ?app_assoc; cbn [app]). reflexivity.
  - intros p q Epq. rewrite length_app. cbn [length].
    destruct (Nat.le_gt_cases (length p) (length before)) as [Hle|]; [|lia].
    exfalso. apply app_eq_app in Epq.
    destruct Epq as [l [[-> El]|[-> El]]]; cycle 1.
    + rewrite length_app in Hle.
      assert (l = []) by (destruct l; [reflexivity | simpl in Hle; lia]). subst l.
      simpl in El. destruct anchor as [|x anchor]; [congruence|].
      injection El as <- _. apply Hb. left; reflexivity.
    + cbn [app] in El. symmetry in El. apply app_eq_app in El.
      destruct El as [l' [[-> El]|[-> El]]].
      * rewrite <- !app_assoc in Es. specialize (Hmin p _ Es).
        rewrite !length_app in Hmin.
        destruct anchor; [congruence | simpl in Hmin; lia].
      * destruct l' as [|y l'].
        -- rewrite app_nil_r in *. rewrite <- !app_assoc in Es.
           specialize (Hmin p _ Es). rewrite !length_app in Hmin.
           destruct l; [congruence | simpl in Hmin; lia].
        -- simpl in El. injection El as <- _. apply Hb.
           apply in_or_app. right; left; reflexivity.
Qed.

Lemma repeated_suggestion_nests_witness :
  exists before after,
    js "料金表はこちら" = before ++ js "料金表" ++ after
    /\ apply_links (js "料金表はこちら")
         [{| Suggestion.anchorText := js "料金表"; Suggestion.url := js "/price" |};
          {| Suggestion.anchorText := js "料金表"; Suggestion.url := js "/price" |}]
       = before ++ js "[[" ++ js "料金表" ++ js "](" ++ js "/price" ++ js ")]("
         ++ js "/price" ++ js ")" ++ after.
Proof.
  apply (repeated_suggestion_nests (js "料金表はこちら")
           {| Suggestion.anchorText := js "料金表"; Suggestion.url := js "/price" |});
    vm_compute; intuition discriminate.
Defined.

(** ** The service-account key *)

(** X16: the key read from the environment.  Unescaping never throws, the
    result holds no backslash followed by n any more, and a key without a
    backslash is passed on as it is. *)
Theorem private_key_unescaped :
  forall key : str,
    exists out,
      private_key (Some key) = Some (Ok out)
      /\ ~ occurs [92; 110] out
      /\ (~ In 92 key -> out = key).
Proof.
  intros key. unfold private_key, escaped_newline. cbn [option_map].
  destruct (replace_returns (lit [92; 110]) (Str [10])
              (fun _ _ _ _ => ex_intro _ [10] eq_refl) key) as [out E].
  exists out. rewrite E. split; [reflexivity|]. split.
  - apply (purge_step [92; 110] [10] key out); try discriminate; [|exact E].
    intros c [<-|[]] [H|[H|[]]]; discriminate.
  - intros H. rewrite (replace_without 92) in E by (reflexivity || exact H).
    congruence.
Qed.

(** ** The quality score *)

(** X17: without an API client the quality score lies between 70 and 95
    and a longer text never scores lower. *)
Theorem mock_quality_score_monotone :
  forall a b : str,
    (length a <= length b)%nat ->
    70 <= mock_quality_score a <= mock_quality_score b
    /\ mock_quality_score b <= 95.
Proof.
  intros a b H. unfold mock_quality_score.
  assert (0 <= Z.of_nat (length a) / 100) by (apply Z.div_pos; lia).
  assert (Z.of_nat (length a) / 100 <= Z.of_nat (length b) / 100)
    by (apply Z.div_le_mono; lia).
  lia.
Qed.

Lemma mock_quality_score_monotone_witness :
  70 <= mock_quality_score (js "SEO") <= mock_quality_score (js "SEO対策")
  /\ mock_quality_score (js "SEO対策") <= 95.
Proof.
  apply (mock_quality_score_monotone (js "SEO") (js "SEO対策")).
  vm_compute. lia.
Defined.

(** ** The design request message *)

Lemma request_blocks_length (total : nat) (requests : list DesignRequest.t) :
  forall index,
    (index + length requests = total)%nat ->
    length (request_blocks total index requests)
    = (3 * length requests - 1)%nat.
Proof.
  induction requests as [|request rest IH]; intros index H; [reflexivity|].
  cbn [request_blocks length app]. rewrite length_app.
  cbn [length] in H. rewrite (IH (S index)) by lia.
  destruct rest as [|r rest].
  - cbn [length] in *. destruct (Z.ltb_spec (Z.of_nat index) (Z.of_nat total - 1)); [lia|].
    reflexivity.
  - cbn [length] in *. destruct (Z.ltb_spec (Z.of_nat index) (Z.of_nat total - 1)); [|lia].
    cbn [length]. lia.
Qed.

Lemma request_blocks_nth (total : nat) (requests : list DesignRequest.t) :
  forall index k request,
    (index + length requests = total)%nat ->
    nth_error requests k = Some request ->
    nth_error (request_blocks total index requests) (3 * k)
    = Some (request_heading (index + k) request)
    /\ nth_error (request_blocks total index requests) (3 * k + 1)
       = Some (request_fields request).
Proof.
  induction requests as [|r rest IH]; intros index k request H Hk.
  - destruct k; discriminate.
  - destruct k as [|k].
    + injection Hk as <-. rewrite Nat.add_0_r. split; reflexivity.
    + cbn [nth_error] in Hk. cbn [length] in H.
      assert (Hrest : rest <> []) by (intros ->; destruct k; discriminate).
      cbn [request_blocks].
      destruct (Z.ltb_spec (Z.of_nat index) (Z.of_nat total - 1)) as [_|Hge];
        [|destruct rest; [congruence | cbn [length] in H; lia]].
      replace (3 * S k)%nat with (S (S (S (3 * k)))) by lia.
      cbn [app nth_error Nat.add].
      destruct (IH (S index) k request ltac:(lia) Hk) as [H1 H2].
      rewrite H1, H2. replace (S index + k)%nat with (index + S k)%nat by lia.
      split; reflexivity.
Qed.

(** X18: the design request message for at least one request has three
    blocks per request and three more: the two opening blocks and a divider,
    then a heading and a field block per request with a divider between
    requests but none after the last, then the closing context block. *)
Theorem design_request_block_count :
  forall (now : str) (requests : list DesignRequest.t),
    requests <> [] ->
    length (buildDesignRequestBlocks now requests)
    = (3 * length requests + 3)%nat.
Proof.
  intros now requests Hne. unfold buildDesignRequestBlocks.
  pose proof (request_blocks_length (length requests) requests 0 eq_refl) as Hl.
  assert (Hpos : (1 <= length requests)%nat)
    by (destruct requests; [congruence | cbn [length]; lia]).
  cbn [app length]. rewrite length_app, Hl. cbn [length]. lia.
Qed.

Lemma design_request_block_count_witness :
  length (buildDesignRequestBlocks (js "2024/1/1 9:00:00")
       [ {| DesignRequest.articleTitle := js "SEO入門";
            DesignRequest.articleUrl := js "/seo";
            DesignRequest.keyPoints := [js "要点"];
            DesignRequest.suggestedGraphics := [js "図"] |} ])
  = (3 * 1 + 3)%nat.
Proof.
  apply (design_request_block_count (js "2024/1/1 9:00:00")
           [ {| DesignRequest.articleTitle := js "SEO入門";
            DesignRequest.articleUrl := js "/seo";
            DesignRequest.keyPoints := [js "要点"];
            DesignRequest.suggestedGraphics := [js "図"] |} ]).
  discriminate.
Defined.

(** X19: where a request sits in the design request message.  The request
    at index [k] has its heading, numbered [k + 1], at block [3 k + 3] and
    its field block right after it. *)
Theorem design_request_position :
  forall (now : str) (requests : list DesignRequest.t) (k : nat)
         (request : DesignRequest.t),
    nth_error requests k = Some request ->
    nth_error (buildDesignRequestBlocks now requests) (3 * k + 3)
    = Some (request_heading k request)
    /\ nth_error (buildDesignRequestBlocks now requests) (3 * k + 4)
       = Some (request_fields request).
Proof.
  intros now requests k request Hk. unfold buildDesignRequestBlocks.
  destruct (request_blocks_nth (length requests) requests 0 k request eq_refl Hk)
    as [H1 H2].
  pose proof (request_blocks_length (length requests) requests 0 eq_refl) as Hl.
  assert (Hlt : (k < length requests)%nat)
    by (apply nth_error_Some; congruence).
  replace (3 * k + 3)%nat with (S (S (S (3 * k)))) by lia.
  replace (3 * k + 4)%nat with (S (S (S (3 * k + 1)))) by lia.
  cbn [app nth_error].
  rewrite !nth_error_app1 by (rewrite Hl; lia).
  rewrite H1, H2. split; reflexivity.
Qed.

Lemma design_request_position_witness :
  nth_error
    (buildDesignRequestBlocks (js "2024/1/1 9:00:00")
       [ {| DesignRequest.articleTitle := js "SEO入門";
            DesignRequest.articleUrl := js "/seo";
            DesignRequest.keyPoints := [js "要点"];
            DesignRequest.suggestedGraphics := [js "図"] |};
         {| DesignRequest.articleTitle := js "SEO入門";
            DesignRequest.articleUrl := js "/seo";
            DesignRequest.keyPoints := [js "要点"];
            DesignRequest.suggestedGraphics := [js "図"] |} ])
    (3 * 1 + 3)
  = Some (request_heading 1
            {| DesignRequest.articleTitle := js "SEO入門";
            DesignRequest.articleUrl := js "/seo";
            DesignRequest.keyPoints := [js "要点"];
            DesignRequest.suggestedGraphics := [js "図"] |})
  /\ nth_error
       (buildDesignRequestBlocks (js "2024/1/1 9:00:00")
          [ {| DesignRequest.articleTitle := js "SEO入門";
            DesignRequest.articleUrl := js "/seo";
            DesignRequest.keyPoints := [js "要点"];
            DesignRequest.suggestedGraphics := [js "図"] |};
            {| DesignRequest.articleTitle := js "SEO入門";
            DesignRequest.articleUrl := js "/seo";
            DesignRequest.keyPoints := [js "要点"];
            DesignRequest.suggestedGraphics := [js "図"] |} ])
       (3 * 1 + 4)
     = Some (request_fields
               {| DesignRequest.articleTitle := js "SEO入門";
            DesignRequest.articleUrl := js "/seo";
            DesignRequest.keyPoints := [js "要点"];
            DesignRequest.suggestedGraphics := [js "図"] |}).
Proof.
  apply (design_request_position (js "2024/1/1 9:00:00")
           [ {| DesignRequest.articleTitle := js "SEO入門";
            DesignRequest.articleUrl := js "/seo";
            DesignRequest.keyPoints := [js "要点"];
            DesignRequest.suggestedGraphics := [js "図"] |};
             {| DesignRequest.articleTitle := js "SEO入門";
            DesignRequest.articleUrl := js "/seo";
            DesignRequest.keyPoints := [js "要点"];
            DesignRequest.suggestedGraphics := [js "図"] |} ] 1).
  reflexivity.
Defined.
